(** * Psychic Pancake: the Cloudflare image uploader, embedded in Rocq

    A shallow embedding of [psychic-pancake.py]: the validator
    [image_checker], the uploader [upload_to_cloudflare], the recursive
    walker [file_walker] and the report block of [uploader].

    Python code that can raise is modelled in a state-and-exception monad
    over an explicit [World] (the log sink, the HTTP requests sent, the
    report file).  A name that a function body reads but never binds is
    looked up the way the interpreter does it: in the module's global
    namespace, then in the builtins, and [NameError] otherwise. *)

From Stdlib Require Import ZArith List String Ascii Bool Lia.
Import ListNotations.
Local Open Scope string_scope.
Local Open Scope Z_scope.
Set Warnings "-register-all".

(** ** Python values and exceptions *)

Module Py.

(** The values the program handles: decoded JSON, and the objects bound in
    a namespace (modules, classes, functions and instances are [Object]s
    with a kind and their data attributes). *)
Inductive value : Type :=
| None_
| Bool (b : bool)
| Int (z : Z)
| Str (s : string)
| List (xs : list value)
| Dict (items : list (string * value))
| Object (kind : string) (attrs : list (string * value)).

Inductive exn : Type :=
| NameError (name : string)
| AttributeError (type_name attr : string)
| TypeError (what : string)
| OSError (what : string)
| UnidentifiedImageError
| ConnectionError
| JSONDecodeError.

Inductive outcome (A : Type) : Type :=
| Ok (a : A)
| Raise (e : exn).
Arguments Ok {A} a.
Arguments Raise {A} e.

Definition type_name (v : value) : string :=
  match v with
  | None_ => "NoneType"
  | Bool _ => "bool"
  | Int _ => "int"
  | Str _ => "str"
  | List _ => "list"
  | Dict _ => "dict"
  | Object kind _ => kind
  end.

Fixpoint assoc {A : Type} (k : string) (kvs : list (string * A)) : option A :=
  match kvs with
  | [] => None
  | (k', v) :: rest => if String.eqb k k' then Some v else assoc k rest
  end.

(** [x != 'literal']: a str equals only an equal str; every other JSON
    value differs from a str. *)
Definition ne_str (v : value) (lit : string) : bool :=
  match v with
  | Str s => negb (String.eqb s lit)
  | _ => true
  end.

(** A namespace: the names a scope binds, innermost binding first. *)
Definition namespace : Type := list (string * value).

Definition opaque (kind : string) : value := Object kind [].

(** The names of the [builtins] module. *)
Definition builtin_names : list string :=
  [ "ArithmeticError"; "AssertionError"; "AttributeError"; "BaseException";
    "BlockingIOError"; "BrokenPipeError"; "BufferError"; "BytesWarning";
    "ChildProcessError"; "ConnectionAbortedError"; "ConnectionError";
    "ConnectionRefusedError"; "ConnectionResetError"; "DeprecationWarning";
    "EOFError"; "Ellipsis"; "EncodingWarning"; "EnvironmentError";
    "Exception"; "False"; "FileExistsError"; "FileNotFoundError";
    "FloatingPointError"; "FutureWarning"; "GeneratorExit"; "IOError";
    "ImportError"; "ImportWarning"; "IndentationError"; "IndexError";
    "InterruptedError"; "IsADirectoryError"; "KeyError";
    "KeyboardInterrupt"; "LookupError"; "MemoryError";
    "ModuleNotFoundError"; "NameError"; "None"; "NotADirectoryError";
    "NotImplemented"; "NotImplementedError"; "OSError"; "OverflowError";
    "PendingDeprecationWarning"; "PermissionError"; "ProcessLookupError";
    "RecursionError"; "ReferenceError"; "ResourceWarning"; "RuntimeError";
    "RuntimeWarning"; "StopAsyncIteration"; "StopIteration"; "SyntaxError";
    "SyntaxWarning"; "SystemError"; "SystemExit"; "TabError";
    "TimeoutError"; "True"; "TypeError"; "UnboundLocalError";
    "UnicodeDecodeError"; "UnicodeEncodeError"; "UnicodeError";
    "UnicodeTranslateError"; "UnicodeWarning"; "UserWarning"; "ValueError";
    "Warning"; "ZeroDivisionError"; "__build_class__"; "__debug__";
    "__doc__"; "__import__"; "__loader__"; "__name__"; "__package__";
    "__spec__"; "abs"; "aiter"; "all"; "anext"; "any"; "ascii"; "bin";
    "bool"; "breakpoint"; "bytearray"; "bytes"; "callable"; "chr";
    "classmethod"; "compile"; "complex"; "copyright"; "credits"; "delattr";
    "dict"; "dir"; "divmod"; "enumerate"; "eval"; "exec"; "exit"; "filter";
    "float"; "format"; "frozenset"; "getattr"; "globals"; "hasattr";
    "hash"; "help"; "hex"; "id"; "input"; "int"; "isinstance";
    "issubclass"; "iter"; "len"; "license"; "list"; "locals"; "map"; "max";
    "memoryview"; "min"; "next"; "object"; "oct"; "open"; "ord"; "pow";
    "print"; "property"; "quit"; "range"; "repr"; "reversed"; "round";
    "set"; "setattr"; "slice"; "sorted"; "staticmethod"; "str"; "sum";
    "super"; "tuple"; "type"; "vars"; "zip" ].

Definition builtins : namespace :=
  map (fun n => (n, opaque "builtin")) builtin_names.

(** What a function body gets when it reads a name it does not bind
    itself: the module's globals, then the builtins. *)
Definition resolve (globals : namespace) (name : string) : outcome value :=
  match assoc name globals with
  | Some v => Ok v
  | None =>
      match assoc name builtins with
      | Some v => Ok v
      | None => Raise (NameError name)
      end
  end.

(** [obj.attr] for a data attribute. *)
Definition getattr (obj : value) (attr : string) : outcome value :=
  match obj with
  | Object kind attrs =>
      match assoc attr attrs with
      | Some v => Ok v
      | None => Raise (AttributeError kind attr)
      end
  | _ => Raise (AttributeError (type_name obj) attr)
  end.

(** [d.get(key)]: only a dict has the method; a missing key gives None. *)
Definition dict_get (d : value) (key : string) : outcome value :=
  match d with
  | Dict items =>
      match assoc key items with
      | Some v => Ok v
      | None => Ok None_
      end
  | _ => Raise (AttributeError (type_name d) "get")
  end.

(** [v > n] for an int [n]. *)
Definition gt_int (v : value) (n : Z) : outcome bool :=
  match v with
  | Int z => Ok (n <? z)
  | Bool b => Ok (n <? (if b then 1 else 0))
  | _ => Raise (TypeError "'>' not supported")
  end.

End Py.

Import Py.

(** ** The filesystem as the path objects see it *)

(** What [PIL.Image.open] reads from an image file's header. *)
Record PILImage : Type := mkImage {
  format : string;
  width : Z;
  height : Z
}.

(** A regular file: the size [stat] reports, and the image it decodes to,
    if it does. *)
Record file_state : Type := mkFile {
  st_size : Z;
  decoded : option PILImage
}.

(** A [pathlib.Path] together with what is on disk under it.  A directory
    carries the path objects [iterdir] yields, in enumeration order;
    [listable] is false for a directory the process may not read.
    [Other] is a path that is neither a directory nor a regular file
    (nothing there, a dangling link, a device). *)
Inductive Path : Type :=
| Regular (p : string) (f : file_state)
| Directory (p : string) (listable : bool) (children : list Path)
| Other (p : string).

Definition path_str (path : Path) : string :=
  match path with
  | Regular p _ => p
  | Directory p _ _ => p
  | Other p => p
  end.

Definition is_dir (path : Path) : bool :=
  match path with Directory _ _ _ => true | _ => false end.

Definition is_file (path : Path) : bool :=
  match path with Regular _ _ => true | _ => false end.

(** [Image.open(path)]: raises unless the path is a regular file holding an
    image PIL identifies. *)
Definition Image_open (path : Path) : outcome PILImage :=
  match path with
  | Regular _ f =>
      match decoded f with
      | Some img => Ok img
      | None => Raise UnidentifiedImageError
      end
  | Directory _ _ _ => Raise (OSError "IsADirectoryError")
  | Other _ => Raise (OSError "FileNotFoundError")
  end.

(** [path.stat().st_size]; the model keeps a size for regular files only. *)
Definition stat_st_size (path : Path) : outcome Z :=
  match path with
  | Regular _ f => Ok (st_size f)
  | _ => Raise (OSError "stat")
  end.

(** *** [Path.name] and [Path.stem] *)

Definition slash : ascii := "/"%char.
Definition dot : ascii := "."%char.

(** The characters after the last [sep]; the whole list when there is none. *)
Fixpoint after_last (sep : ascii) (cs : list ascii) : list ascii :=
  match cs with
  | [] => []
  | c :: rest =>
      if existsb (Ascii.eqb sep) rest then after_last sep rest
      else if Ascii.eqb c sep then rest else c :: rest
  end.

(** The characters before the last [sep]. *)
Fixpoint before_last (sep : ascii) (cs : list ascii) : list ascii :=
  match cs with
  | [] => []
  | c :: rest =>
      if existsb (Ascii.eqb sep) rest then c :: before_last sep rest
      else []
  end.

Definition name (path : Path) : string :=
  string_of_list_ascii (after_last slash (list_ascii_of_string (path_str path))).

(** pathlib: [i = name.rfind('.')]; the stem is [name[:i]] when
    [0 < i < len(name) - 1], and the whole name otherwise. *)
Definition stem (path : Path) : string :=
  let cs := list_ascii_of_string (name path) in
  if existsb (Ascii.eqb dot) cs then
    let front := before_last dot cs in
    let back := after_last dot cs in
    match front, back with
    | _ :: _, _ :: _ => string_of_list_ascii front
    | _, _ => name path
    end
  else name path.

(** ** The world the program acts on *)

Inductive log_level : Type := INFO | WARNING | ERROR.

(** The pieces of a formatted log message: literal text, a formatted value,
    a formatted integer, a formatted exception. *)
Inductive fragment : Type :=
| Text (s : string)
| Fmt (v : value)
| FmtInt (z : Z)
| FmtExn (e : exn).

Record log_record : Type := mkLog {
  level : log_level;
  message : list fragment
}.

(** One [requests.post] call: the URL, the headers, and the multipart
    fields, each a field name with the pair (file name, path of the file
    object opened for reading). *)
Record http_request : Type := mkRequest {
  url : string;
  headers : list (string * string);
  files : list (string * (string * string))
}.

(** What the service answers to a request: no answer at all (the transport
    fails), or a status code and a body, [None] when the body is not JSON. *)
Inductive http_reply : Type :=
| Unreachable
| Reply (status_code : Z) (body : option value).

(** The arguments one call of the validator was entered with. *)
Record checker_call : Type := mkCall {
  call_path : option Path;
  call_max_bytes : Z;
  call_max_dim : Z;
  call_max_pixels : Z;
  call_image_types : list string
}.

(** A CSV field: [csv] writes None as an empty field. *)
Inductive csv_field : Type :=
| Blank
| Field (v : value).

Definition csv_row : Type := list csv_field.

(** Everything a run leaves behind.  [checker_calls] is a ghost trace: it
    records the arguments of every validator call and nothing reads it. *)
Record World : Type := mkWorld {
  logged : list log_record;
  posted : list http_request;
  checker_calls : list checker_call;
  report_file : option (string * list csv_row)
}.

Definition empty_world : World := mkWorld [] [] [] None.

(** ** The monad of Python statements: state, and exceptions that keep the
    state reached when they were raised *)

Definition M (A : Type) : Type := World -> outcome A * World.

Definition ret {A : Type} (a : A) : M A := fun w => (Ok a, w).

Definition raise {A : Type} (e : exn) : M A := fun w => (Raise e, w).

Definition bind {A B : Type} (m : M A) (k : A -> M B) : M B :=
  fun w =>
    match m w with
    | (Ok a, w') => k a w'
    | (Raise e, w') => (Raise e, w')
    end.

Definition lift {A : Type} (o : outcome A) : M A := fun w => (o, w).

Declare Scope py_scope.
Delimit Scope py_scope with py.
Notation "x <- m ;; k" := (bind m (fun x => k))
  (at level 100, m at next level, right associativity) : py_scope.
Notation "m ;; k" := (bind m (fun _ => k))
  (at level 100, right associativity) : py_scope.
Local Open Scope py_scope.

Definition emit (lvl : log_level) (msg : list fragment) : M unit :=
  fun w => (Ok tt, mkWorld (logged w ++ [mkLog lvl msg]) (posted w)
                           (checker_calls w) (report_file w)).

Definition logger_info := emit INFO.
Definition logger_warn := emit WARNING.
Definition logger_error := emit ERROR.
Definition logger_exception (exc : exn) := emit ERROR [FmtExn exc].

Definition enter_checker (c : checker_call) : M unit :=
  fun w => (Ok tt, mkWorld (logged w) (posted w)
                           (checker_calls w ++ [c]) (report_file w)).

(** ** The module *)

(** The names the module's top level binds: the interpreter's own entries,
    the imports, and the assignments and [def]s, in source order. *)
Definition module_globals : namespace :=
  [ ("__name__", Str "__main__");
    ("__doc__", Str "Psychic Pancake Cloudflare Image Uploader");
    ("__package__", None_);
    ("__loader__", opaque "loader");
    ("__spec__", None_);
    ("__annotations__", Dict []);
    ("__builtins__", opaque "module");
    ("__file__", Str "psychic-pancake.py");
    ("__cached__", None_);
    ("Optional", opaque "typing"); ("List", opaque "typing");
    ("Tuple", opaque "typing");
    ("Path", opaque "type");
    ("DictWriter", opaque "type");
    ("logging", opaque "module");
    ("Image", opaque "module");
    ("typer", opaque "module");
    ("__author__", Str "Lickitysplitted");
    ("__version__", Str "0.0.1");
    ("app", opaque "Typer");
    ("logger", opaque "Logger");
    ("image_checker", opaque "function");
    ("upload_to_cloudflare", opaque "function");
    ("file_walker", opaque "function");
    ("uploader", opaque "function") ].

(** The [requests] package, were it imported. *)
Definition requests_module : value := opaque "module requests".

(** [requests.post]: the attribute exists on the [requests] module only. *)
Definition attr_post (m : value) : outcome unit :=
  match m with
  | Object kind _ =>
      if String.eqb kind "module requests" then Ok tt
      else Raise (AttributeError kind "post")
  | _ => Raise (AttributeError (type_name m) "post")
  end.

(** [str(v)] as an f-string field formats it: exact for str, bool and None;
    the model prints an int, a container or an object as its type name. *)
Definition str (v : value) : string :=
  match v with
  | Str s => s
  | None_ => "None"
  | Bool true => "True"
  | Bool false => "False"
  | _ => "<" ++ type_name v ++ ">"
  end.

(** [path.open('rb')]: the file object, named by the path it reads. *)
Definition open_rb (path : Path) : outcome string :=
  match path with
  | Regular p _ => Ok p
  | Directory _ _ _ => Raise (OSError "IsADirectoryError")
  | Other _ => Raise (OSError "FileNotFoundError")
  end.

(** The default values of [image_checker]'s keyword parameters. *)
Definition default_max_bytes : Z := 10485760.
Definition default_max_dim : Z := 12000.
Definition default_max_pixels : Z := 100000000.
Definition default_image_types : list string := ["PNG"; "JPEG"].

Section Module_body.

(** The global namespace the function bodies run in, and the remote
    service: what it answers to each request. *)
Variable globals : namespace.
Variable service : http_request -> http_reply.

Definition image_checker (path : option Path)
    (max_bytes max_dim max_pixels : Z) (image_types : list string) : M bool :=
  (* ghost: note the arguments the call was entered with *)
  enter_checker (mkCall path max_bytes max_dim max_pixels image_types) ;;
  match path with
  | None => ret false                                 (* if not path *)
  | Some path =>
      match Image_open path with                      (* try: Image.open *)
      | Raise exc => logger_exception exc ;; ret false
      | Ok img =>
          if negb (existsb (String.eqb (format img)) image_types) then
            logger_warn [Text "CHECK-FAIL: "; Text (path_str path);
                         Text " is an unsupported file"] ;;
            ret false
          else
            size <- lift (stat_st_size path) ;;
            if max_bytes <? size then
              logger_warn [Text "CHECK-FAIL: "; Text (path_str path);
                           Text " exceeds max size"] ;;
              ret false
            else if max_pixels <? width img * height img then
              logger_warn [Text "CHECK-FAIL: "; Text (path_str path);
                           Text " exceeds max pixel count"] ;;
              ret false
            else
              (* image.width > max_dim or image.height > max_dim *)
              image <- lift (resolve globals "image") ;;
              w <- lift (getattr image "width") ;;
              wide <- lift (gt_int w max_dim) ;;
              over <- (if wide then ret true
                       else
                         image <- lift (resolve globals "image") ;;
                         h <- lift (getattr image "height") ;;
                         lift (gt_int h max_dim)) ;;
              if over then
                logger_warn [Text "CHECK-FAIL: "; Text (path_str path);
                             Text " exceeds dimensional limits"] ;;
                ret false
              else ret true
      end
  end.

(** [requests.post(url=..., headers=..., files=...)]: the request goes out,
    then the transport either fails or hands back the service's answer. *)
Definition post (req : http_request) : M (Z * option value) :=
  fun w =>
    let w' := mkWorld (logged w) (posted w ++ [req])
                      (checker_calls w) (report_file w) in
    match service req with
    | Unreachable => (Raise ConnectionError, w')
    | Reply code body => (Ok (code, body), w')
    end.

(** [resp.json()] *)
Definition json (resp : Z * option value) : outcome value :=
  match snd resp with
  | Some v => Ok v
  | None => Raise JSONDecodeError
  end.

Definition upload_to_cloudflare (image : Path) (cf_id cf_token : string)
    : M value :=
  cfid <- lift (resolve globals "cfid") ;;
  let url := "https://api.Cloudflare.com/client/v4/accounts/" ++ str cfid
             ++ "/images/v1" in
  requests <- lift (resolve globals "requests") ;;
  lift (attr_post requests) ;;
  let headers := [("Authorization", "Bearer " ++ cf_token)] in
  fobj <- lift (open_rb image) ;;
  resp <- post (mkRequest url headers [("file", (stem image, fobj))]) ;;
  if negb (fst resp =? 200) then
    logger_error [Text "The upload of "; Text (path_str image);
                  Text " to Cloudflare has failed with a status code of ";
                  FmtInt (fst resp); Text "."] ;;
    ret None_
  else
    ret_ <- lift (json resp) ;;
    success <- lift (dict_get ret_ "success") ;;
    if ne_str success "true" then
      logger_error [Text "The upload of "; Text (path_str image);
                    Text " to Cloudflare has failed with an unknown error and response of ";
                    Fmt ret_] ;;
      ret None_
    else ret ret_.

Fixpoint file_walker (pobj : Path) (cf_id cf_token : string)
    {struct pobj} : M (list (Path * value)) :=
  match pobj with
  | Directory _ listable children =>                 (* pobj.is_dir() *)
      if listable then
        (fix iterate (items : list Path) (file_log : list (Path * value))
             {struct items} : M (list (Path * value)) :=
           match items with
           | [] => ret file_log
           | item :: rest =>
               sub <- file_walker item cf_id cf_token ;;
               iterate rest (file_log ++ sub)%list
           end) children []
      else raise (OSError "PermissionError")         (* pobj.iterdir() *)
  | Regular _ _ =>                                   (* pobj.is_file() *)
      ok <- image_checker (Some pobj) default_max_bytes default_max_dim
                          default_max_pixels default_image_types ;;
      if ok then
        resp <- upload_to_cloudflare pobj cf_id cf_token ;;
        logger_info [Text "Successfully uploaded "; Text (path_str pobj);
                     Text ": "; Fmt resp] ;;
        ret [(pobj, resp)]
      else ret []
  | Other _ => ret []
  end.

(** The [for item in pobj.iterdir()] loop of [file_walker], by itself. *)
Fixpoint walk_items (items : list Path) (cf_id cf_token : string)
    (file_log : list (Path * value)) : M (list (Path * value)) :=
  match items with
  | [] => ret file_log
  | item :: rest =>
      sub <- file_walker item cf_id cf_token ;;
      walk_items rest cf_id cf_token (file_log ++ sub)%list
  end.

(** The [if report:] block of [uploader]: open the file for writing, write
    the header, then one row per entry of the log.  The paths of the model
    are absolute, so [str(entry[0].resolve())] is the path's own string. *)
Definition open_w (report : string) : M unit :=
  fun w => (Ok tt, mkWorld (logged w) (posted w) (checker_calls w)
                           (Some (report, []))).

Definition writerow (row : csv_row) : M unit :=
  fun w =>
    match report_file w with
    | Some (report, rows) =>
        (Ok tt, mkWorld (logged w) (posted w) (checker_calls w)
                        (Some (report, (rows ++ [row])%list)))
    | None => (Raise (OSError "I/O operation on closed file"), w)
    end.

Definition to_field (v : value) : csv_field :=
  match v with
  | None_ => Blank
  | _ => Field v
  end.

Definition fieldnames : list string := ["filename"; "id"; "upload"; "varients"].

Definition writeheader : M unit :=
  writerow (map (fun n => Field (Str n)) fieldnames).

Fixpoint write_entries (file_log : list (Path * value)) : M unit :=
  match file_log with
  | [] => ret tt
  | entry :: rest =>
      id <- lift (dict_get (snd entry) "id") ;;
      upload <- lift (dict_get (snd entry) "uploaded") ;;
      varients <- lift (dict_get (snd entry) "varients") ;;
      writerow [Field (Str (path_str (fst entry))); to_field id;
                to_field upload; to_field varients] ;;
      write_entries rest
  end.

Definition write_report (report : string) (file_log : list (Path * value))
    : M unit :=
  open_w report ;;
  writeheader ;;
  write_entries file_log.

(** The command.  Its option declarations and the logging set-up are
    outside the model: what is kept is the walk and the report block.  (As
    written, the declaration of [verbose] passes a positional argument
    after a keyword one, which Python's parser refuses.) *)
Definition uploader (path : Path) (cloudflare_token cloudflare_id : string)
    (report : option string) : M unit :=
  file_log <- file_walker path cloudflare_id cloudflare_token ;;
  match report with
  | Some report => write_report report file_log
  | None => ret tt
  end.

End Module_body.

(** * Specification vocabulary *)

(** ** Running a statement *)

Definition result {A : Type} (m : M A) (w : World) : outcome A := fst (m w).
Definition after {A : Type} (m : M A) (w : World) : World := snd (m w).

(** A statement whose result does not depend on the world it starts in. *)
Definition stateless {A : Type} (m : M A) : Prop :=
  forall w w' : World, result m w = result m w'.

(** A statement that takes every world to one related to it by [R]. *)
Definition keeps (R : World -> World -> Prop) {A : Type} (m : M A) : Prop :=
  forall w : World, R w (after m w).

(** ** What the validator is documented to decide *)

Definition accepted (types : list string) (img : PILImage) : bool :=
  existsb (String.eqb (format img)) types.

Definition conforms (f : file_state) (img : PILImage)
    (max_bytes max_dim max_pixels : Z) (types : list string) : bool :=
  accepted types img
  && (st_size f <=? max_bytes)
  && (width img * height img <=? max_pixels)
  && (width img <=? max_dim)
  && (height img <=? max_dim).

(** The image object a decoded file gives, as a namespace would hold it. *)
Definition image_object (img : PILImage) : value :=
  Object "PngImageFile"
    [("format", Str (format img)); ("width", Int (width img));
     ("height", Int (height img))].

(** ** Footprints *)

(** Only the log and the ghost trace may differ. *)
Definition only_logs (w w' : World) : Prop :=
  posted w' = posted w /\ report_file w' = report_file w.

(** No request went out. *)
Definition nothing_posted (w w' : World) : Prop := posted w' = posted w.

(** The ghost trace of validator calls is what it was. *)
Definition same_calls (w w' : World) : Prop := checker_calls w' = checker_calls w.

Definition default_call (c : checker_call) : Prop :=
  call_max_bytes c = 10485760 /\ call_max_dim c = 12000
  /\ call_max_pixels c = 100000000 /\ call_image_types c = ["PNG"; "JPEG"].

(** The validator calls made between two worlds all carry the defaults. *)
Definition default_calls_only (w w' : World) : Prop :=
  exists calls : list checker_call,
    checker_calls w' = (checker_calls w ++ calls)%list
    /\ Forall default_call calls.

(** ** The report *)


Definition header_row : csv_row :=
  [Field (Str "filename"); Field (Str "id"); Field (Str "upload");
   Field (Str "varients")].

Definition is_dict (v : value) : Prop :=
  match v with Dict _ => True | _ => False end.

(** ** Concrete inputs *)

(** A one-pixel PNG of 100 bytes, a text file, and the directory of both. *)
Definition good_png : Path :=
  Regular "/pics/good.png" (mkFile 100 (Some (mkImage "PNG" 1 1))).

Definition notes_txt : Path := Regular "/pics/notes.txt" (mkFile 20 None).

Definition pics : Path := Directory "/pics" true [good_png; notes_txt].

(** A PNG one pixel wider than the dimension limit, under the other limits. *)
Definition wide_png : Path :=
  Regular "/pics/wide.png" (mkFile 100 (Some (mkImage "PNG" 12001 1))).

(** A directory of files that are not images. *)
Definition docs : Path :=
  Directory "/docs" true [notes_txt; Directory "/docs/old" true [notes_txt];
                          Other "/docs/dangling"].

(** Services: one that answers 500, one that answers 200 and success false,
    one that answers 200 with the success body of the service's API, one
    whose body lacks the success member. *)
Definition answers_500 (_ : http_request) : http_reply := Reply 500 None.

Definition answers_failure (_ : http_request) : http_reply :=
  Reply 200 (Some (Dict [("success", Bool false)])).

Definition answers_no_indicator (_ : http_request) : http_reply :=
  Reply 200 (Some (Dict [("errors", List [])])).

Definition success_body : value :=
  Dict [("success", Bool true); ("id", Str "abc");
        ("uploaded", Str "2024-01-01"); ("varients", List [])].

Definition answers_success (_ : http_request) : http_reply :=
  Reply 200 (Some success_body).

(** The module's namespace with the two names the uploader reads bound:
    [cfid] to an account id and [requests] to the package. *)
Definition uploader_names_bound : namespace :=
  ("cfid", Str "acct") :: ("requests", requests_module) :: module_globals.

(** The same, with [image] bound to the decoded image of [good_png]. *)
Definition all_names_bound : namespace :=
  ("image", image_object (mkImage "PNG" 1 1)) :: uploader_names_bound.

(** ** Vocabulary of the further properties *)

(** The checks of [image_checker] that come before the dimension check:
    the path decodes, the format is accepted, the byte size and the pixel
    count are within their limits. *)
Definition reaches_dimension_check (path : option Path)
    (max_bytes max_pixels : Z) (types : list string) : bool :=
  match path with
  | Some (Regular _ f) =>
      match decoded f with
      | Some img =>
          accepted types img && (st_size f <=? max_bytes)
          && (width img * height img <=? max_pixels)
      | None => false
      end
  | _ => false
  end.


(** The warning [image_checker] logs for a failed check. *)
Definition check_fail (path : Path) (what : string) : log_record :=
  mkLog WARNING [Text "CHECK-FAIL: "; Text (path_str path); Text what].

(** The regular files at and below a path, in the order a walk meets them. *)
Fixpoint regular_files (pobj : Path) : list Path :=
  match pobj with
  | Regular _ _ => [pobj]
  | Directory _ _ children => flat_map regular_files children
  | Other _ => []
  end.


(** The call of the validator the walker makes for a file. *)
Definition default_call_of (pobj : Path) : checker_call :=
  mkCall (Some pobj) default_max_bytes default_max_dim default_max_pixels
         default_image_types.

(** What a walk over the single path [f] contributes to a log. *)
Definition entries_of (g : namespace) (service : http_request -> http_reply)
    (cf_id cf_token : string) (f : Path) : list (Path * value) :=
  match result (file_walker g service f cf_id cf_token) empty_world with
  | Ok log => log
  | Raise _ => []
  end.

(** The request line 107 builds, for the value the name [cfid] holds. *)
Definition request_for (account : value) (cf_token : string) (image : Path)
    : http_request :=
  mkRequest ("https://api.Cloudflare.com/client/v4/accounts/" ++ str account
             ++ "/images/v1")
            [("Authorization", "Bearer " ++ cf_token)]
            [("file", (stem image, path_str image))].

(** The report file is what it was. *)
Definition report_untouched (w w' : World) : Prop :=
  report_file w' = report_file w.

(** The requests sent between two worlds all carry the bearer token, and
    nothing else, in their headers. *)
Definition bearer_requests_only (cf_token : string) (w w' : World) : Prop :=
  exists reqs : list http_request,
    posted w' = (posted w ++ reqs)%list
    /\ Forall (fun r => headers r = [("Authorization", "Bearer " ++ cf_token)])
              reqs.

(** A PNG of a million bytes over the byte limit, a GIF, and a PNG of
    10001 x 10000 pixels. *)
Definition heavy_png : Path :=
  Regular "/pics/heavy.png" (mkFile 10485761 (Some (mkImage "PNG" 10 10))).

Definition anim_gif : Path :=
  Regular "/pics/anim.gif" (mkFile 100 (Some (mkImage "GIF" 10 10))).

Definition vast_png : Path :=
  Regular "/pics/vast.png" (mkFile 100 (Some (mkImage "PNG" 10001 10000))).

(** * Verification *)

(** ** The monad *)

Lemma run_bind {A B : Type} (m : M A) (k : A -> M B) (w : World) :
  bind m k w =
  match result m w with
  | Ok a => k a (after m w)
  | Raise e => (Raise e, after m w)
  end.
Proof.
  unfold bind, result, after. destruct (m w) as [[a | e] w']; reflexivity.
Qed.

Lemma stateless_ret {A : Type} (a : A) : stateless (ret a).
Proof. intros w w'. reflexivity. Qed.

Lemma stateless_raise {A : Type} (e : exn) : stateless (@raise A e).
Proof. intros w w'. reflexivity. Qed.

Lemma stateless_lift {A : Type} (o : outcome A) : stateless (lift o).
Proof. intros w w'. reflexivity. Qed.

Lemma stateless_emit (lvl : log_level) (msg : list fragment) :
  stateless (emit lvl msg).
Proof. intros w w'. reflexivity. Qed.

Lemma stateless_enter_checker (c : checker_call) : stateless (enter_checker c).
Proof. intros w w'. reflexivity. Qed.

Lemma stateless_post (service : http_request -> http_reply) (req : http_request) :
  stateless (post service req).
Proof.
  intros w w'. unfold result, post. destruct (service req); reflexivity.
Qed.

Lemma stateless_bind {A B : Type} (m : M A) (k : A -> M B) :
  stateless m -> (forall a, stateless (k a)) -> stateless (bind m k).
Proof.
  intros Hm Hk w w'. unfold result. rewrite !run_bind, (Hm w w').
  destruct (result m w') as [a | e]; [apply Hk | reflexivity].
Qed.

Create HintDb stateless.
#[local] Hint Resolve stateless_ret stateless_raise stateless_lift stateless_emit
  stateless_enter_checker stateless_post : stateless.

(** Splits a straight-line body into its statements and branches. *)
Ltac stateless_body :=
  repeat first
    [ apply stateless_bind; [| intros ?]
    | progress auto with stateless
    | match goal with
      | |- stateless (if ?c then _ else _) => destruct c
      | |- stateless (match ?o with Ok _ => _ | Raise _ => _ end) => destruct o
      | |- stateless (match ?o with Some _ => _ | None => _ end) => destruct o
      end ].

Section Footprint.

Variable R : World -> World -> Prop.
Hypothesis R_refl : forall w, R w w.
Hypothesis R_trans : forall w1 w2 w3, R w1 w2 -> R w2 w3 -> R w1 w3.

Lemma keeps_ret {A : Type} (a : A) : keeps R (ret a).
Proof. intros w. apply R_refl. Qed.

Lemma keeps_raise {A : Type} (e : exn) : keeps R (@raise A e).
Proof. intros w. apply R_refl. Qed.

Lemma keeps_lift {A : Type} (o : outcome A) : keeps R (lift o).
Proof. intros w. apply R_refl. Qed.

Lemma keeps_bind {A B : Type} (m : M A) (k : A -> M B) :
  keeps R m -> (forall a, keeps R (k a)) -> keeps R (bind m k).
Proof.
  intros Hm Hk w. unfold after. rewrite run_bind.
  destruct (result m w) as [a | e]; cbn.
  - apply R_trans with (after m w); [apply Hm | apply Hk].
  - apply Hm.
Qed.

End Footprint.

Ltac keeps_body refl trans :=
  repeat first
    [ apply (keeps_bind _ trans); [| intros ?]
    | apply (keeps_ret _ refl)
    | apply (keeps_raise _ refl)
    | apply (keeps_lift _ refl)
    | match goal with
      | |- keeps _ (if ?c then _ else _) => destruct c
      | |- keeps _ (match ?o with Ok _ => _ | Raise _ => _ end) => destruct o
      | |- keeps _ (match ?o with Some _ => _ | None => _ end) => destruct o
      end ].

Lemma only_logs_refl (w : World) : only_logs w w.
Proof. split; reflexivity. Qed.

Lemma only_logs_trans (w1 w2 w3 : World) :
  only_logs w1 w2 -> only_logs w2 w3 -> only_logs w1 w3.
Proof. intros [H1 H2] [H3 H4]. split; congruence. Qed.

Lemma default_calls_only_refl (w : World) : default_calls_only w w.
Proof. exists []. split; [now rewrite app_nil_r | constructor]. Qed.

Lemma default_calls_only_trans (w1 w2 w3 : World) :
  default_calls_only w1 w2 -> default_calls_only w2 w3 ->
  default_calls_only w1 w3.
Proof.
  intros [c1 [E1 F1]] [c2 [E2 F2]]. exists (c1 ++ c2)%list. split.
  - now rewrite E2, E1, app_assoc.
  - apply Forall_app. now split.
Qed.

Lemma same_calls_refl (w : World) : same_calls w w.
Proof. reflexivity. Qed.

Lemma same_calls_trans (w1 w2 w3 : World) :
  same_calls w1 w2 -> same_calls w2 w3 -> same_calls w1 w3.
Proof. unfold same_calls. congruence. Qed.

Lemma emit_same_calls (lvl : log_level) (msg : list fragment) :
  keeps same_calls (emit lvl msg).
Proof. intros w. reflexivity. Qed.

Lemma post_same_calls (service : http_request -> http_reply)
    (req : http_request) : keeps same_calls (post service req).
Proof. intros w. unfold same_calls, after, post. now destruct (service req). Qed.

Lemma emit_only_logs (lvl : log_level) (msg : list fragment) :
  keeps only_logs (emit lvl msg).
Proof. intros w. split; reflexivity. Qed.

Lemma enter_checker_only_logs (c : checker_call) :
  keeps only_logs (enter_checker c).
Proof. intros w. split; reflexivity. Qed.

Lemma emit_default_calls (lvl : log_level) (msg : list fragment) :
  keeps default_calls_only (emit lvl msg).
Proof.
  intros w. exists []. split; [cbn; now rewrite app_nil_r | constructor].
Qed.

Lemma post_default_calls (service : http_request -> http_reply)
    (req : http_request) : keeps default_calls_only (post service req).
Proof.
  intros w. exists []. split; [| constructor].
  unfold after, post. destruct (service req); cbn; now rewrite app_nil_r.
Qed.

Lemma enter_checker_default_calls (c : checker_call) :
  default_call c -> keeps default_calls_only (enter_checker c).
Proof.
  intros Hc w. exists [c]. split; [reflexivity | now constructor].
Qed.

(** ** Name resolution in the module *)

Lemma image_unbound : resolve module_globals "image" = Raise (NameError "image").
Proof. reflexivity. Qed.

Lemma cfid_unbound : resolve module_globals "cfid" = Raise (NameError "cfid").
Proof. reflexivity. Qed.

Lemma requests_unbound :
  resolve module_globals "requests" = Raise (NameError "requests").
Proof. reflexivity. Qed.

(** ** The validator *)

Lemma accepted_In (types : list string) (img : PILImage) :
  accepted types img = true <-> In (format img) types.
Proof.
  unfold accepted. rewrite existsb_exists. split.
  - intros [t [Hin Heq]]. apply String.eqb_eq in Heq. now subst.
  - intros Hin. exists (format img). split; [assumption | apply String.eqb_refl].
Qed.

(** Past the format, size and pixel checks the body reads the name
    [image]: whatever the dimensions are, the call ends in the exception
    that name resolves to. *)
Lemma image_checker_reaches_image (g : namespace) (e : exn)
    (p : string) (f : file_state) (img : PILImage)
    (max_bytes max_dim max_pixels : Z) (types : list string) (w : World) :
  resolve g "image" = Raise e ->
  decoded f = Some img ->
  accepted types img = true ->
  st_size f <= max_bytes ->
  width img * height img <= max_pixels ->
  result (image_checker g (Some (Regular p f)) max_bytes max_dim max_pixels types) w
  = Raise e.
Proof.
  intros Hres Hdec Hacc Hsize Hpix.
  unfold result, image_checker, bind, enter_checker, lift. cbn.
  rewrite Hdec. fold (accepted types img). rewrite Hacc. cbn.
  destruct (Z.ltb_spec max_bytes (st_size f)) as [Hlt | _]; [lia |].
  destruct (Z.ltb_spec max_pixels (width img * height img)) as [Hlt | _]; [lia |].
  rewrite Hres. reflexivity.
Qed.


(** A path that does not decode is rejected. *)
Lemma image_checker_undecodable (g : namespace) (path : Path) (exc : exn)
    (max_bytes max_dim max_pixels : Z) (types : list string) (w : World) :
  Image_open path = Raise exc ->
  result (image_checker g (Some path) max_bytes max_dim max_pixels types) w
  = Ok false.
Proof.
  intros H. unfold result, image_checker, bind, enter_checker. cbn.
  rewrite H. reflexivity.
Qed.

(** The rejections that come before the dimension check work as written:
    wrong format, too many bytes, too many pixels. *)
Lemma image_checker_rejects_early (g : namespace)
    (p : string) (f : file_state) (img : PILImage)
    (max_bytes max_dim max_pixels : Z) (types : list string) (w : World) :
  decoded f = Some img ->
  accepted types img = false \/ max_bytes < st_size f
    \/ max_pixels < width img * height img ->
  result (image_checker g (Some (Regular p f)) max_bytes max_dim max_pixels types) w
  = Ok false.
Proof.
  intros Hdec H.
  unfold result, image_checker, bind, enter_checker, lift. cbn.
  rewrite Hdec. fold (accepted types img).
  destruct (accepted types img); cbn; [| reflexivity].
  destruct (Z.ltb_spec max_bytes (st_size f)); cbn; [reflexivity |].
  destruct (Z.ltb_spec max_pixels (width img * height img)); cbn; [reflexivity |].
  destruct H as [H | [H | H]]; [discriminate | lia | lia].
Qed.

(** Were the name [image] bound to the decoded image, the body would
    compute exactly the documented predicate. *)
Lemma image_checker_with_image_bound (g : namespace)
    (p : string) (f : file_state) (img : PILImage)
    (max_bytes max_dim max_pixels : Z) (types : list string) (w : World) :
  decoded f = Some img ->
  result (image_checker (("image", image_object img) :: g)
            (Some (Regular p f)) max_bytes max_dim max_pixels types) w
  = Ok (conforms f img max_bytes max_dim max_pixels types).
Proof.
  intros Hdec.
  unfold result, image_checker, bind, enter_checker, lift, conforms. cbn.
  rewrite Hdec. fold (accepted types img).
  destruct (accepted types img); cbn; [| reflexivity].
  rewrite (Z.leb_antisym max_bytes), (Z.leb_antisym max_pixels),
    (Z.leb_antisym max_dim (width img)), (Z.leb_antisym max_dim (height img)).
  destruct (max_bytes <? st_size f); cbn; [reflexivity |].
  destruct (max_pixels <? width img * height img); cbn; [reflexivity |].
  destruct (max_dim <? width img); cbn; [reflexivity |].
  destruct (max_dim <? height img); reflexivity.
Qed.

(** The validator writes log lines and nothing else: no request, no file. *)
Lemma image_checker_only_logs (g : namespace) (path : option Path)
    (max_bytes max_dim max_pixels : Z) (types : list string) :
  keeps only_logs (image_checker g path max_bytes max_dim max_pixels types).
Proof.
  unfold image_checker, logger_exception, logger_warn.
  keeps_body only_logs_refl only_logs_trans;
    first [apply emit_only_logs | apply enter_checker_only_logs].
Qed.

Lemma image_checker_stateless (g : namespace) (path : option Path)
    (max_bytes max_dim max_pixels : Z) (types : list string) :
  stateless (image_checker g path max_bytes max_dim max_pixels types).
Proof.
  unfold image_checker, logger_exception, logger_warn. stateless_body.
Qed.

Lemma image_checker_default_calls (g : namespace) (path : option Path) :
  keeps default_calls_only
    (image_checker g path default_max_bytes default_max_dim
       default_max_pixels default_image_types).
Proof.
  unfold image_checker, logger_exception, logger_warn.
  keeps_body default_calls_only_refl default_calls_only_trans;
    first [ apply emit_default_calls
          | apply enter_checker_default_calls; repeat split ].
Qed.

(** C1.  Where the claim promises [True] the code raises.  For every file
    that decodes as an image in an accepted format and lies at or under the
    default byte, pixel and dimension limits, [image_checker] with its
    default constraints ends in [NameError: name 'image' is not defined]
    (the dimension check reads [image], the decoded image is [img]). *)
Theorem image_checker_raises_on_conforming_file
    (p : string) (f : file_state) (img : PILImage) (w : World) :
  decoded f = Some img ->
  In (format img) ["PNG"; "JPEG"] ->
  st_size f <= 10485760 ->
  width img * height img <= 100000000 ->
  width img <= 12000 ->
  height img <= 12000 ->
  result (image_checker module_globals (Some (Regular p f)) default_max_bytes
            default_max_dim default_max_pixels default_image_types) w
  = Raise (NameError "image").
Proof.
  intros Hdec Hfmt Hsize Hpix _ _.
  apply image_checker_reaches_image with (img := img); try assumption.
  - exact image_unbound.
  - now apply accepted_In.
Qed.

Lemma image_checker_raises_on_good_png :
  result (image_checker module_globals (Some good_png) default_max_bytes
            default_max_dim default_max_pixels default_image_types) empty_world
  = Raise (NameError "image").
Proof.
  apply (image_checker_raises_on_conforming_file "/pics/good.png"
           (mkFile 100 (Some (mkImage "PNG" 1 1))) (mkImage "PNG" 1 1)).
  - reflexivity.
  - simpl. left. reflexivity.
  - simpl. lia.
  - simpl. lia.
  - simpl. lia.
  - simpl. lia.
Defined.

(** C7.  The validator is not total: there is an on-disk state, a PNG one
    pixel over the dimension limit and under every other limit, on which it
    returns no boolean in any world; the call raises [NameError]. *)
Theorem image_checker_not_total :
  exists path : Path, forall w : World,
    result (image_checker module_globals (Some path) default_max_bytes
              default_max_dim default_max_pixels default_image_types) w
    = Raise (NameError "image").
Proof.
  exists wide_png. intros w. unfold wide_png.
  apply image_checker_reaches_image with (img := mkImage "PNG" 12001 1).
  - exact image_unbound.
  - reflexivity.
  - reflexivity.
  - cbn. unfold default_max_bytes. lia.
  - cbn. unfold default_max_pixels. lia.
Qed.

(** ** The uploader *)

(** The first statement of the body formats the name [cfid]; the parameter
    is [cf_id].  Whatever that name resolves to, the call ends there, in
    the world it started from. *)
Lemma upload_stops_at_cfid (g : namespace) (e : exn)
    (service : http_request -> http_reply) (image : Path)
    (cf_id cf_token : string) (w : World) :
  resolve g "cfid" = Raise e ->
  upload_to_cloudflare g service image cf_id cf_token w = (Raise e, w).
Proof.
  intros H. unfold upload_to_cloudflare, bind, lift. rewrite H. reflexivity.
Qed.

(** With [cfid] bound the call gets as far as the name [requests], which
    the module never imports. *)
Lemma upload_stops_at_requests (g : namespace) (account : value) (e : exn)
    (service : http_request -> http_reply) (image : Path)
    (cf_id cf_token : string) (w : World) :
  resolve g "cfid" = Ok account ->
  resolve g "requests" = Raise e ->
  upload_to_cloudflare g service image cf_id cf_token w = (Raise e, w).
Proof.
  intros H1 H2. unfold upload_to_cloudflare, bind, lift. rewrite H1, H2.
  reflexivity.
Qed.

Lemma upload_in_module_raises (service : http_request -> http_reply)
    (image : Path) (cf_id cf_token : string) (w : World) :
  upload_to_cloudflare module_globals service image cf_id cf_token w
  = (Raise (NameError "cfid"), w).
Proof. apply upload_stops_at_cfid. exact cfid_unbound. Qed.

(** With both names bound, the status check of the body does what its
    comment says: any status but 200 gives None. *)
Lemma upload_non_200_when_names_bound (g : namespace) (account : value)
    (service : http_request -> http_reply) (p : string) (f : file_state)
    (cf_id cf_token : string) (w : World) (code : Z) (body : option value) :
  resolve g "cfid" = Ok account ->
  resolve g "requests" = Ok requests_module ->
  (forall req, service req = Reply code body) ->
  code <> 200 ->
  result (upload_to_cloudflare g service (Regular p f) cf_id cf_token) w
  = Ok None_.
Proof.
  intros H1 H2 Hs Hc.
  unfold result, upload_to_cloudflare, bind, lift, post. rewrite H1, H2. cbn.
  rewrite Hs. cbn. destruct (Z.eqb_spec code 200); [contradiction | reflexivity].
Qed.

(** With both names bound, a 200 answer is accepted only when its success
    member is the str ['true']: every other body, the JSON boolean true
    included, gives None. *)
Lemma upload_200_when_names_bound (g : namespace) (account : value)
    (service : http_request -> http_reply) (p : string) (f : file_state)
    (cf_id cf_token : string) (w : World) (items : list (string * value)) :
  resolve g "cfid" = Ok account ->
  resolve g "requests" = Ok requests_module ->
  (forall req, service req = Reply 200 (Some (Dict items))) ->
  result (upload_to_cloudflare g service (Regular p f) cf_id cf_token) w
  = Ok (match assoc "success" items with
        | Some (Str "true") => Dict items
        | _ => None_
        end).
Proof.
  intros H1 H2 Hs.
  unfold result, upload_to_cloudflare, bind, lift, post. rewrite H1, H2. cbn.
  rewrite Hs. cbn.
  destruct (assoc "success" items) as [v |]; cbn; [| reflexivity].
  destruct v as [| b | z | s | xs | kvs | kind attrs]; cbn; try reflexivity.
  destruct (String.eqb_spec s "true") as [-> | Hne]; cbn; [reflexivity |].
  destruct s as [| [[] [] [] [] [] [] [] []] s1]; try reflexivity.
  repeat
    match goal with
    | |- context [match ?s with EmptyString => _ | String _ _ => _ end] =>
        destruct s as [| [[] [] [] [] [] [] [] []] ?]; try reflexivity
    end.
  contradiction Hne; reflexivity.
Qed.

Lemma upload_stateless (g : namespace) (service : http_request -> http_reply)
    (image : Path) (cf_id cf_token : string) :
  stateless (upload_to_cloudflare g service image cf_id cf_token).
Proof.
  unfold upload_to_cloudflare, logger_error. stateless_body.
Qed.

Lemma upload_default_calls (g : namespace)
    (service : http_request -> http_reply) (image : Path)
    (cf_id cf_token : string) :
  keeps default_calls_only (upload_to_cloudflare g service image cf_id cf_token).
Proof.
  unfold upload_to_cloudflare, logger_error.
  keeps_body default_calls_only_refl default_calls_only_trans;
    first [apply emit_default_calls | apply post_default_calls].
Qed.

(** C3.  On its two failure paths the uploader raises instead of returning
    None: against a service that answers 500, and against one that answers
    200 with a false or a missing success member, the call ends in
    [NameError: name 'cfid' is not defined]. *)
Theorem upload_failure_paths_raise :
  result (upload_to_cloudflare module_globals answers_500 good_png "acct" "tok")
         empty_world = Raise (NameError "cfid")
  /\ result (upload_to_cloudflare module_globals answers_failure good_png
               "acct" "tok") empty_world = Raise (NameError "cfid")
  /\ result (upload_to_cloudflare module_globals answers_no_indicator good_png
               "acct" "tok") empty_world = Raise (NameError "cfid").
Proof. repeat split; unfold result; now rewrite upload_in_module_raises. Qed.

(** C4.  A 200 answer whose body is [{"success": true, ...}] is not
    returned.  In the module the call raises on [cfid]; with [cfid] bound
    it raises on [requests]; with both bound it compares the success member
    with the str ['true'] and returns None for the boolean. *)
Theorem upload_success_body_not_returned :
  result (upload_to_cloudflare module_globals answers_success good_png
            "acct" "tok") empty_world = Raise (NameError "cfid")
  /\ result (upload_to_cloudflare (("cfid", Str "acct") :: module_globals)
               answers_success good_png "acct" "tok") empty_world
     = Raise (NameError "requests")
  /\ result (upload_to_cloudflare uploader_names_bound answers_success
               good_png "acct" "tok") empty_world = Ok None_.
Proof. repeat split; reflexivity. Qed.

(** C8.  No POST is issued: for every file, credentials and service, the
    call in the module raises before [requests.post] and the list of
    requests sent is what it was.  (With the two names bound, the one
    request sent carries the stem [good] of [/pics/good.png] as the file
    name, not the base name.) *)
Theorem upload_posts_nothing (service : http_request -> http_reply)
    (image : Path) (cf_id cf_token : string) (w : World) :
  posted (after (upload_to_cloudflare module_globals service image cf_id
                   cf_token) w) = posted w
  /\ result (upload_to_cloudflare module_globals service image cf_id cf_token) w
     = Raise (NameError "cfid")
  /\ posted (after (upload_to_cloudflare uploader_names_bound answers_success
                      good_png "acct" "tok") empty_world)
     = [mkRequest "https://api.Cloudflare.com/client/v4/accounts/acct/images/v1"
          [("Authorization", "Bearer tok")]
          [("file", ("good", "/pics/good.png"))]].
Proof.
  unfold after, result. rewrite upload_in_module_raises.
  repeat split; reflexivity.
Qed.

(** ** The walker *)

(** Induction over a path and everything below it. *)
Lemma Path_tree_ind (P : Path -> Prop) :
  (forall p f, P (Regular p f)) ->
  (forall p listable children,
      Forall P children -> P (Directory p listable children)) ->
  (forall p, P (Other p)) ->
  forall pobj, P pobj.
Proof.
  intros HR HD HO. fix IH 1. intros [p f | p listable children | p].
  - apply HR.
  - apply HD. induction children as [| c cs IHcs]; constructor.
    + apply IH.
    + exact IHcs.
  - apply HO.
Qed.

(** The loop inside [file_walker] is [walk_items]. *)
Lemma file_walker_directory (g : namespace)
    (service : http_request -> http_reply) (p : string)
    (children : list Path) (cf_id cf_token : string) (w : World) :
  file_walker g service (Directory p true children) cf_id cf_token w
  = walk_items g service children cf_id cf_token [] w.
Proof.
  cbn [file_walker]. generalize (@nil (Path * value)). revert w.
  induction children as [| c cs IH]; intros w file_log; [reflexivity |].
  cbn [walk_items]. unfold bind at 1 3.
  destruct (file_walker g service c cf_id cf_token w) as [[sub | e] w'].
  - apply IH.
  - reflexivity.
Qed.

Lemma walk_items_stateless (g : namespace)
    (service : http_request -> http_reply) (items : list Path)
    (cf_id cf_token : string) :
  Forall (fun item => stateless (file_walker g service item cf_id cf_token))
         items ->
  forall file_log, stateless (walk_items g service items cf_id cf_token file_log).
Proof.
  induction 1 as [| c cs Hc _ IH]; intros file_log; cbn [walk_items].
  - apply stateless_ret.
  - apply stateless_bind; [exact Hc | intros sub; apply IH].
Qed.

Lemma file_walker_stateless (g : namespace)
    (service : http_request -> http_reply) (cf_id cf_token : string)
    (pobj : Path) :
  stateless (file_walker g service pobj cf_id cf_token).
Proof.
  induction pobj as [p f | p listable children IH | p] using Path_tree_ind.
  - cbn [file_walker]. unfold logger_info.
    apply stateless_bind; [apply image_checker_stateless | intros ok].
    destruct ok; [| apply stateless_ret].
    apply stateless_bind; [apply upload_stateless | intros resp].
    stateless_body.
  - destruct listable; [| intros w w'; reflexivity].
    intros w w'. unfold result. rewrite !file_walker_directory.
    now apply walk_items_stateless.
  - intros w w'. reflexivity.
Qed.

Lemma walk_items_default_calls (g : namespace)
    (service : http_request -> http_reply) (items : list Path)
    (cf_id cf_token : string) :
  Forall (fun item =>
            keeps default_calls_only (file_walker g service item cf_id cf_token))
         items ->
  forall file_log,
    keeps default_calls_only (walk_items g service items cf_id cf_token file_log).
Proof.
  induction 1 as [| c cs Hc _ IH]; intros file_log; cbn [walk_items].
  - apply keeps_ret, default_calls_only_refl.
  - apply (keeps_bind _ default_calls_only_trans); [exact Hc |].
    intros sub. apply IH.
Qed.

Lemma file_walker_default_calls (g : namespace)
    (service : http_request -> http_reply) (cf_id cf_token : string)
    (pobj : Path) :
  keeps default_calls_only (file_walker g service pobj cf_id cf_token).
Proof.
  induction pobj as [p f | p listable children IH | p] using Path_tree_ind.
  - cbn [file_walker]. unfold logger_info.
    apply (keeps_bind _ default_calls_only_trans);
      [apply image_checker_default_calls | intros ok].
    destruct ok; [| apply keeps_ret, default_calls_only_refl].
    apply (keeps_bind _ default_calls_only_trans);
      [apply upload_default_calls | intros resp].
    keeps_body default_calls_only_refl default_calls_only_trans.
    apply emit_default_calls.
  - destruct listable; [| intros w; apply default_calls_only_refl].
    intros w. unfold after. rewrite file_walker_directory.
    now apply walk_items_default_calls.
  - intros w. apply default_calls_only_refl.
Qed.

(** Every regular file the walker meets is put to the validator once. *)
Lemma file_walker_calls_checker (g : namespace)
    (service : http_request -> http_reply) (cf_id cf_token : string)
    (p : string) (f : file_state) (w : World) :
  checker_calls (after (file_walker g service (Regular p f) cf_id cf_token) w)
  = (checker_calls w
     ++ [mkCall (Some (Regular p f)) default_max_bytes default_max_dim
           default_max_pixels default_image_types])%list.
Proof.
  set (chk := image_checker g (Some (Regular p f)) default_max_bytes
                default_max_dim default_max_pixels default_image_types).
  assert (Hchk : checker_calls (after chk w)
                 = (checker_calls w
                    ++ [mkCall (Some (Regular p f)) default_max_bytes
                          default_max_dim default_max_pixels
                          default_image_types])%list).
  { unfold chk, after, image_checker, bind, enter_checker, lift,
      logger_exception, logger_warn, emit, ret. cbn.
    destruct (decoded f) as [img |]; cbn; [| reflexivity].
    destruct (negb _); cbn; [reflexivity |].
    destruct (_ <? st_size f); cbn; [reflexivity |].
    destruct (_ <? width img * height img); cbn; [reflexivity |].
    destruct (resolve g "image") as [im |]; cbn; [| reflexivity].
    destruct (getattr im "width") as [wd |]; cbn; [| reflexivity].
    destruct (gt_int wd default_max_dim) as [[] |]; cbn; try reflexivity.
    destruct (getattr im "height") as [ht |]; cbn; [| reflexivity].
    destruct (gt_int ht default_max_dim) as [[] |]; reflexivity. }
  assert (Hrest : forall ok : bool,
             keeps same_calls
               (if ok then
                  resp <- upload_to_cloudflare g service (Regular p f) cf_id
                            cf_token ;;
                  logger_info [Text "Successfully uploaded "; Text p;
                               Text ": "; Fmt resp] ;;
                  ret [(Regular p f, resp)]
                else ret [])).
  { intros ok. unfold upload_to_cloudflare, logger_info, logger_error.
    keeps_body same_calls_refl same_calls_trans;
      first [apply emit_same_calls | apply post_same_calls]. }
  unfold after at 1. cbn [file_walker path_str]. fold chk. rewrite run_bind.
  destruct (result chk w) as [ok | e]; [| exact Hchk].
  rewrite <- Hchk. exact (Hrest ok (after chk w)).
Qed.



(** With every name bound, the walker's own logic is the documented one:
    the accepted image gets one entry, with the absence value when the
    upload failed, and the rejected file gets none. *)
Lemma walk_pics_when_names_bound :
  result (file_walker all_names_bound answers_500 pics "acct" "tok") empty_world
  = Ok [(good_png, None_)].
Proof. reflexivity. Qed.

(** C2.  A directory holding one conforming image and one text file gives
    no log at all: the walk ends in the validator's [NameError], where the
    claim counts one validated file and one entry. *)
Theorem walk_over_conforming_image_raises :
  result (file_walker module_globals answers_success pics "acct" "tok")
         empty_world
  = Raise (NameError "image").
Proof. reflexivity. Qed.

(** C5.  A conforming image whose upload fails leaves no entry: the walk
    over that file raises in the validator, and with the validator's name
    bound it raises in the uploader, so [(path, None)] is never appended. *)
Theorem walk_failed_upload_leaves_no_entry :
  result (file_walker module_globals answers_500 good_png "acct" "tok")
         empty_world = Raise (NameError "image")
  /\ result (file_walker (("image", image_object (mkImage "PNG" 1 1))
                            :: module_globals)
               answers_500 good_png "acct" "tok") empty_world
     = Raise (NameError "cfid").
Proof. split; reflexivity. Qed.

(** C9.  Walking the same tree again, in the world the first walk left
    behind and against the same service, ends the same way: the same log,
    entry for entry and in the same order, or the same exception. *)
Theorem walk_twice_same_log (g : namespace)
    (service : http_request -> http_reply) (pobj : Path)
    (cf_id cf_token : string) (w : World) :
  result (file_walker g service pobj cf_id cf_token)
         (after (file_walker g service pobj cf_id cf_token) w)
  = result (file_walker g service pobj cf_id cf_token) w.
Proof. apply file_walker_stateless. Qed.

(** C10.  Every validator call a walk makes carries the default
    constraints: max_bytes 10485760, max_dim 12000, max_pixels 100000000
    and the formats PNG and JPEG, whatever the root, the credentials, the
    namespace and the service. *)
Theorem walk_checks_with_defaults (g : namespace)
    (service : http_request -> http_reply) (pobj : Path)
    (cf_id cf_token : string) (w : World) :
  exists calls : list checker_call,
    checker_calls (after (file_walker g service pobj cf_id cf_token) w)
    = (checker_calls w ++ calls)%list
    /\ Forall (fun c => call_max_bytes c = 10485760
                        /\ call_max_dim c = 12000
                        /\ call_max_pixels c = 100000000
                        /\ call_image_types c = ["PNG"; "JPEG"]) calls.
Proof. apply file_walker_default_calls. Qed.

(** ** The report *)



(** C6.  The report of a log holding one entry whose result is None is the
    header alone: writing the entry's row raises
    [AttributeError: 'NoneType' object has no attribute 'get'].  (Run from
    the command on a conforming image, the walk raises before the report is
    opened and no file is written.) *)
Theorem write_report_fails_on_absent_result :
  write_report "report.csv" [(good_png, None_)] empty_world
  = (Raise (AttributeError "NoneType" "get"),
     mkWorld [] [] [] (Some ("report.csv", [header_row])))
  /\ result (uploader module_globals answers_500 good_png "tok" "acct"
               (Some "report.csv")) empty_world = Raise (NameError "image")
  /\ report_file (after (uploader module_globals answers_500 good_png "tok"
                           "acct" (Some "report.csv")) empty_world) = None.
Proof. repeat split; reflexivity. Qed.

(** * Further properties of the code *)

(** ** [image_checker] *)

(** The validator's outcome in the module. *)
Lemma image_checker_in_module (path : option Path)
    (max_bytes max_dim max_pixels : Z) (types : list string) (w : World) :
  result (image_checker module_globals path max_bytes max_dim max_pixels types) w
  = if reaches_dimension_check path max_bytes max_pixels types
    then Raise (NameError "image") else Ok false.
Proof.
  unfold result, image_checker, reaches_dimension_check, bind, enter_checker,
    lift, logger_exception, logger_warn, emit, ret.
  destruct path as [[p f | p l cs | p] |]; cbn; try reflexivity.
  destruct (decoded f) as [img |]; cbn; [| reflexivity].
  fold (accepted types img). destruct (accepted types img); cbn; [| reflexivity].
  rewrite (Z.leb_antisym max_bytes), (Z.leb_antisym max_pixels).
  destruct (max_bytes <? st_size f); cbn; [reflexivity |].
  destruct (max_pixels <? width img * height img); reflexivity.
Qed.

(** X1.  In the module as written the validator has two outcomes only: it
    raises [NameError] on [image] when the path decodes in an accepted
    format within the byte and pixel limits, and returns [False] in every
    other case.  It never returns [True] and [max_dim] plays no part. *)
Theorem image_checker_module_outcome (path : option Path)
    (max_bytes max_dim max_pixels : Z) (types : list string) (w : World) :
  result (image_checker module_globals path max_bytes max_dim max_pixels types) w
  = if reaches_dimension_check path max_bytes max_pixels types
    then Raise (NameError "image") else Ok false.
Proof. apply image_checker_in_module. Qed.

(** X2.  A path that does not open as an image (a corrupt or non-image
    file, a directory, nothing there) is rejected in every namespace and
    under every constraint; the call logs the exception, once, at error
    level, and changes nothing else. *)
Theorem image_checker_logs_decode_error (g : namespace) (path : Path)
    (exc : exn) (max_bytes max_dim max_pixels : Z) (types : list string)
    (w : World) :
  Image_open path = Raise exc ->
  result (image_checker g (Some path) max_bytes max_dim max_pixels types) w
  = Ok false
  /\ logged (after (image_checker g (Some path) max_bytes max_dim max_pixels
                      types) w)
     = (logged w ++ [mkLog ERROR [FmtExn exc]])%list
  /\ posted (after (image_checker g (Some path) max_bytes max_dim max_pixels
                      types) w) = posted w.
Proof.
  intros H. unfold result, after, image_checker, bind, enter_checker. cbn.
  rewrite H. repeat split; reflexivity.
Qed.

Lemma image_checker_logs_decode_error_witness :
  result (image_checker module_globals (Some notes_txt) 10 10 10 []) empty_world
  = Ok false
  /\ logged (after (image_checker module_globals (Some notes_txt) 10 10 10 [])
                   empty_world)
     = ([] ++ [mkLog ERROR [FmtExn UnidentifiedImageError]])%list
  /\ posted (after (image_checker module_globals (Some notes_txt) 10 10 10 [])
                   empty_world) = [].
Proof.
  apply (image_checker_logs_decode_error module_globals notes_txt
           UnidentifiedImageError 10 10 10 [] empty_world).
  reflexivity.
Defined.

(** X3.  The format check comes first: an image whose format is not in the
    accepted list is rejected whatever its size and dimensions, with the
    warning naming the path as an unsupported file. *)
Theorem image_checker_rejects_unsupported_format (g : namespace) (p : string)
    (f : file_state) (img : PILImage) (max_bytes max_dim max_pixels : Z)
    (types : list string) (w : World) :
  decoded f = Some img ->
  ~ In (format img) types ->
  result (image_checker g (Some (Regular p f)) max_bytes max_dim max_pixels
            types) w = Ok false
  /\ logged (after (image_checker g (Some (Regular p f)) max_bytes max_dim
                      max_pixels types) w)
     = (logged w ++ [check_fail (Regular p f) " is an unsupported file"])%list.
Proof.
  intros Hdec Hfmt.
  assert (Hacc : accepted types img = false).
  { destruct (accepted types img) eqn:E; [| reflexivity].
    apply accepted_In in E. contradiction. }
  unfold result, after, image_checker, bind, enter_checker. cbn.
  rewrite Hdec. fold (accepted types img). rewrite Hacc. split; reflexivity.
Qed.

Lemma image_checker_rejects_unsupported_format_witness :
  result (image_checker module_globals (Some anim_gif) default_max_bytes
            default_max_dim default_max_pixels default_image_types) empty_world
  = Ok false
  /\ logged (after (image_checker module_globals (Some anim_gif)
                      default_max_bytes default_max_dim default_max_pixels
                      default_image_types) empty_world)
     = ([] ++ [check_fail anim_gif " is an unsupported file"])%list.
Proof.
  apply (image_checker_rejects_unsupported_format module_globals
           "/pics/anim.gif" (mkFile 100 (Some (mkImage "GIF" 10 10)))
           (mkImage "GIF" 10 10)).
  - reflexivity.
  - simpl. intros [H | [H | H]]; [discriminate H | discriminate H | exact H].
Defined.

(** X4.  The byte limit is inclusive and is checked before the pixels: an
    image in an accepted format whose size is above [max_bytes] is rejected
    with the max-size warning, whatever its dimensions. *)
Theorem image_checker_rejects_oversized (g : namespace) (p : string)
    (f : file_state) (img : PILImage) (max_bytes max_dim max_pixels : Z)
    (types : list string) (w : World) :
  decoded f = Some img ->
  In (format img) types ->
  max_bytes < st_size f ->
  result (image_checker g (Some (Regular p f)) max_bytes max_dim max_pixels
            types) w = Ok false
  /\ logged (after (image_checker g (Some (Regular p f)) max_bytes max_dim
                      max_pixels types) w)
     = (logged w ++ [check_fail (Regular p f) " exceeds max size"])%list.
Proof.
  intros Hdec Hfmt Hsize. apply accepted_In in Hfmt.
  unfold result, after, image_checker, bind, enter_checker, lift. cbn.
  rewrite Hdec. fold (accepted types img). rewrite Hfmt. cbn.
  destruct (Z.ltb_spec max_bytes (st_size f)); [| lia]. split; reflexivity.
Qed.

Lemma image_checker_rejects_oversized_witness :
  result (image_checker module_globals (Some heavy_png) default_max_bytes
            default_max_dim default_max_pixels default_image_types) empty_world
  = Ok false
  /\ logged (after (image_checker module_globals (Some heavy_png)
                      default_max_bytes default_max_dim default_max_pixels
                      default_image_types) empty_world)
     = ([] ++ [check_fail heavy_png " exceeds max size"])%list.
Proof.
  apply (image_checker_rejects_oversized module_globals "/pics/heavy.png"
           (mkFile 10485761 (Some (mkImage "PNG" 10 10))) (mkImage "PNG" 10 10)).
  - reflexivity.
  - simpl. left. reflexivity.
  - simpl. unfold default_max_bytes. lia.
Defined.

(** X5.  An image in an accepted format and within the byte limit whose
    width times height is above [max_pixels] is rejected with the
    pixel-count warning, before either dimension is looked at. *)
Theorem image_checker_rejects_too_many_pixels (g : namespace) (p : string)
    (f : file_state) (img : PILImage) (max_bytes max_dim max_pixels : Z)
    (types : list string) (w : World) :
  decoded f = Some img ->
  In (format img) types ->
  st_size f <= max_bytes ->
  max_pixels < width img * height img ->
  result (image_checker g (Some (Regular p f)) max_bytes max_dim max_pixels
            types) w = Ok false
  /\ logged (after (image_checker g (Some (Regular p f)) max_bytes max_dim
                      max_pixels types) w)
     = (logged w ++ [check_fail (Regular p f) " exceeds max pixel count"])%list.
Proof.
  intros Hdec Hfmt Hsize Hpix. apply accepted_In in Hfmt.
  unfold result, after, image_checker, bind, enter_checker, lift. cbn.
  rewrite Hdec. fold (accepted types img). rewrite Hfmt. cbn.
  destruct (Z.ltb_spec max_bytes (st_size f)); [lia |].
  destruct (Z.ltb_spec max_pixels (width img * height img)); [| lia].
  split; reflexivity.
Qed.

Lemma image_checker_rejects_too_many_pixels_witness :
  result (image_checker module_globals (Some vast_png) default_max_bytes
            default_max_dim default_max_pixels default_image_types) empty_world
  = Ok false
  /\ logged (after (image_checker module_globals (Some vast_png)
                      default_max_bytes default_max_dim default_max_pixels
                      default_image_types) empty_world)
     = ([] ++ [check_fail vast_png " exceeds max pixel count"])%list.
Proof.
  apply (image_checker_rejects_too_many_pixels module_globals "/pics/vast.png"
           (mkFile 100 (Some (mkImage "PNG" 10001 10000)))
           (mkImage "PNG" 10001 10000)).
  - reflexivity.
  - simpl. left. reflexivity.
  - simpl. unfold default_max_bytes. lia.
  - simpl. unfold default_max_pixels. lia.
Defined.

(** X6.  One call of the validator, in any namespace and on any path,
    writes at most one log record, sends no request and leaves the report
    file alone. *)
Theorem image_checker_footprint (g : namespace) (path : option Path)
    (max_bytes max_dim max_pixels : Z) (types : list string) (w : World) :
  exists recs : list log_record,
    logged (after (image_checker g path max_bytes max_dim max_pixels types) w)
    = (logged w ++ recs)%list
    /\ (List.length recs <= 1)%nat
    /\ posted (after (image_checker g path max_bytes max_dim max_pixels types) w)
       = posted w
    /\ report_file (after (image_checker g path max_bytes max_dim max_pixels
                             types) w) = report_file w.
Proof.
  assert (H0 : exists recs : list log_record,
             logged w = (logged w ++ recs)%list /\ (List.length recs <= 1)%nat).
  { exists []. split; [now rewrite app_nil_r | cbn; lia]. }
  assert (H1 : forall r, exists recs : list log_record,
             (logged w ++ [r])%list = (logged w ++ recs)%list
             /\ (List.length recs <= 1)%nat).
  { intros r. exists [r]. split; [reflexivity | cbn; lia]. }
  unfold after, image_checker, bind, enter_checker, lift, logger_exception,
    logger_warn, emit, ret.
  destruct path as [path |]; cbn;
    [| destruct H0 as [recs [E L]]; exists recs; auto].
  destruct (Image_open path) as [img | exc]; cbn;
    [| destruct (H1 (mkLog ERROR [FmtExn exc])) as [recs [E L]]; exists recs; auto].
  destruct (negb _); cbn;
    [destruct (H1 (check_fail path " is an unsupported file")) as [recs [E L]];
     exists recs; auto |].
  destruct (stat_st_size path) as [size | e]; cbn;
    [| destruct H0 as [recs [E L]]; exists recs; auto].
  destruct (max_bytes <? size); cbn;
    [destruct (H1 (check_fail path " exceeds max size")) as [recs [E L]];
     exists recs; auto |].
  destruct (max_pixels <? width img * height img); cbn;
    [destruct (H1 (check_fail path " exceeds max pixel count")) as [recs [E L]];
     exists recs; auto |].
  destruct (resolve g "image") as [im | e]; cbn;
    [| destruct H0 as [recs [E L]]; exists recs; auto].
  destruct (getattr im "width") as [wd | e]; cbn;
    [| destruct H0 as [recs [E L]]; exists recs; auto].
  destruct (gt_int wd max_dim) as [[] | e]; cbn;
    [destruct (H1 (check_fail path " exceeds dimensional limits"))
       as [recs [E L]]; exists recs; auto
    | | destruct H0 as [recs [E L]]; exists recs; auto].
  destruct (getattr im "height") as [ht | e]; cbn;
    [| destruct H0 as [recs [E L]]; exists recs; auto].
  destruct (gt_int ht max_dim) as [[] | e]; cbn;
    [destruct (H1 (check_fail path " exceeds dimensional limits"))
       as [recs [E L]]; exists recs; auto
    | destruct H0 as [recs [E L]]; exists recs; auto
    | destruct H0 as [recs [E L]]; exists recs; auto].
Qed.

(** X7.  In a namespace where the name [image] is bound to the decoded
    image (the module binds no such name), the validator returns [True]
    exactly when the format is accepted, the size is at most [max_bytes],
    width times height is at most [max_pixels], and width and height are
    each at most [max_dim]; otherwise it returns [False]. *)
Theorem image_checker_decides_when_image_bound (g : namespace) (p : string)
    (f : file_state) (img : PILImage) (max_bytes max_dim max_pixels : Z)
    (types : list string) (w : World) :
  decoded f = Some img ->
  exists b : bool,
    result (image_checker (("image", image_object img) :: g)
              (Some (Regular p f)) max_bytes max_dim max_pixels types) w = Ok b
    /\ (b = true <->
        In (format img) types /\ st_size f <= max_bytes
        /\ width img * height img <= max_pixels
        /\ width img <= max_dim /\ height img <= max_dim).
Proof.
  intros Hdec. exists (conforms f img max_bytes max_dim max_pixels types).
  split; [now apply image_checker_with_image_bound |].
  unfold conforms. rewrite !andb_true_iff, !Z.leb_le, accepted_In. tauto.
Qed.

Lemma image_checker_decides_when_image_bound_witness :
  exists b : bool,
    result (image_checker (("image", image_object (mkImage "PNG" 12001 1))
                             :: module_globals)
              (Some wide_png) default_max_bytes default_max_dim
              default_max_pixels default_image_types) empty_world = Ok b
    /\ (b = true <->
        In "PNG" default_image_types /\ 100 <= default_max_bytes
        /\ 12001 * 1 <= default_max_pixels
        /\ 12001 <= default_max_dim /\ 1 <= default_max_dim).
Proof.
  apply (image_checker_decides_when_image_bound module_globals "/pics/wide.png"
           (mkFile 100 (Some (mkImage "PNG" 12001 1))) (mkImage "PNG" 12001 1)).
  reflexivity.
Defined.

(** ** [upload_to_cloudflare] *)

(** The properties below hold in every namespace that binds the two names
    the body reads, [cfid] and [requests]; the module as written binds
    neither, and there the call raises before any of this. *)

Lemma upload_runs_to_post (g : namespace) (account : value)
    (service : http_request -> http_reply) (p : string) (f : file_state)
    (cf_id cf_token : string) (w : World) :
  resolve g "cfid" = Ok account ->
  resolve g "requests" = Ok requests_module ->
  upload_to_cloudflare g service (Regular p f) cf_id cf_token w
  = bind (post service (request_for account cf_token (Regular p f)))
      (fun resp =>
         if negb (fst resp =? 200) then
           logger_error [Text "The upload of "; Text p;
                         Text " to Cloudflare has failed with a status code of ";
                         FmtInt (fst resp); Text "."] ;;
           ret None_
         else
           ret_ <- lift (json resp) ;;
           success <- lift (dict_get ret_ "success") ;;
           if ne_str success "true" then
             logger_error [Text "The upload of "; Text p;
                           Text " to Cloudflare has failed with an unknown error and response of ";
                           Fmt ret_] ;;
             ret None_
           else ret ret_) w.
Proof.
  intros H1 H2. unfold upload_to_cloudflare, bind at 1 2 3 4, lift.
  rewrite H1, H2. reflexivity.
Qed.



(** X9.  A status other than 200 gives None whatever the body says, a
    success body included, and logs one error that carries the status. *)
Theorem upload_non_200_is_absent (g : namespace) (account : value)
    (service : http_request -> http_reply) (p : string) (f : file_state)
    (cf_id cf_token : string) (w : World) (code : Z) (body : option value) :
  resolve g "cfid" = Ok account ->
  resolve g "requests" = Ok requests_module ->
  service (request_for account cf_token (Regular p f)) = Reply code body ->
  code <> 200 ->
  result (upload_to_cloudflare g service (Regular p f) cf_id cf_token) w
  = Ok None_
  /\ logged (after (upload_to_cloudflare g service (Regular p f) cf_id
                      cf_token) w)
     = (logged w
        ++ [mkLog ERROR
              [Text "The upload of "; Text p;
               Text " to Cloudflare has failed with a status code of ";
               FmtInt code; Text "."]])%list.
Proof.
  intros H1 H2 Hs Hc. unfold result, after.
  rewrite (upload_runs_to_post g account); auto.
  unfold bind, post, lift. rewrite Hs. cbn.
  destruct (Z.eqb_spec code 200); [contradiction |]. split; reflexivity.
Qed.

Lemma upload_non_200_is_absent_witness :
  result (upload_to_cloudflare uploader_names_bound
            (fun _ => Reply 403 (Some success_body)) good_png "acct" "tok")
         empty_world = Ok None_
  /\ logged (after (upload_to_cloudflare uploader_names_bound
                      (fun _ => Reply 403 (Some success_body)) good_png
                      "acct" "tok") empty_world)
     = ([] ++ [mkLog ERROR
                 [Text "The upload of "; Text "/pics/good.png";
                  Text " to Cloudflare has failed with a status code of ";
                  FmtInt 403; Text "."]])%list.
Proof.
  apply (upload_non_200_is_absent uploader_names_bound (Str "acct")
           (fun _ => Reply 403 (Some success_body)) "/pics/good.png"
           (mkFile 100 (Some (mkImage "PNG" 1 1))) "acct" "tok" empty_world
           403 (Some success_body)).
  - reflexivity.
  - reflexivity.
  - reflexivity.
  - lia.
Defined.

(** X10.  On a 200 answer with a JSON object, the body is returned exactly
    when its [success] member is the str ['true']; for every other object -
    [success] missing, false, or the boolean true - the result is None. *)
Theorem upload_accepts_only_the_str_true (g : namespace) (account : value)
    (service : http_request -> http_reply) (p : string) (f : file_state)
    (cf_id cf_token : string) (w : World) (items : list (string * value)) :
  resolve g "cfid" = Ok account ->
  resolve g "requests" = Ok requests_module ->
  service (request_for account cf_token (Regular p f))
  = Reply 200 (Some (Dict items)) ->
  (assoc "success" items = Some (Str "true") ->
   result (upload_to_cloudflare g service (Regular p f) cf_id cf_token) w
   = Ok (Dict items))
  /\ (assoc "success" items <> Some (Str "true") ->
      result (upload_to_cloudflare g service (Regular p f) cf_id cf_token) w
      = Ok None_).
Proof.
  intros H1 H2 Hs. unfold result.
  rewrite (upload_runs_to_post g account); auto.
  unfold bind, post, lift. rewrite Hs. cbn.
  destruct (assoc "success" items) as [v |]; cbn.
  - destruct v as [| b | z | s | xs | kvs | kind attrs]; cbn;
      try (split; [discriminate | reflexivity]).
    destruct (String.eqb_spec s "true") as [-> | Hne]; cbn.
    + split; [reflexivity | intros H; now contradiction H].
    + split; [intros H; injection H as H; contradiction | reflexivity].
  - split; [discriminate | reflexivity].
Qed.

Lemma upload_accepts_only_the_str_true_witness :
  (assoc "success" [("success", Str "true"); ("id", Str "abc")]
   = Some (Str "true") ->
   result (upload_to_cloudflare uploader_names_bound
             (fun _ => Reply 200 (Some (Dict [("success", Str "true");
                                              ("id", Str "abc")])))
             good_png "acct" "tok") empty_world
   = Ok (Dict [("success", Str "true"); ("id", Str "abc")]))
  /\ (assoc "success" [("success", Str "true"); ("id", Str "abc")]
      <> Some (Str "true") ->
      result (upload_to_cloudflare uploader_names_bound
                (fun _ => Reply 200 (Some (Dict [("success", Str "true");
                                                 ("id", Str "abc")])))
                good_png "acct" "tok") empty_world
      = Ok None_).
Proof.
  apply (upload_accepts_only_the_str_true uploader_names_bound (Str "acct")
           (fun _ => Reply 200 (Some (Dict [("success", Str "true");
                                            ("id", Str "abc")])))
           "/pics/good.png" (mkFile 100 (Some (mkImage "PNG" 1 1)))
           "acct" "tok" empty_world).
  - reflexivity.
  - reflexivity.
  - reflexivity.
Defined.

(** X11.  Failures of the transport and of the decoding are not caught:
    when no answer comes the call raises the connection error, on a 200
    answer whose body is not JSON it raises the decode error, and on a 200
    answer whose JSON is not an object it raises [AttributeError] on [get];
    none of the three writes a log line. *)
Theorem upload_propagates_transport_and_decode_errors (g : namespace)
    (account : value) (service : http_request -> http_reply) (p : string)
    (f : file_state) (cf_id cf_token : string) (w : World) :
  resolve g "cfid" = Ok account ->
  resolve g "requests" = Ok requests_module ->
  let req := request_for account cf_token (Regular p f) in
  let run := upload_to_cloudflare g service (Regular p f) cf_id cf_token in
  (service req = Unreachable -> result run w = Raise ConnectionError)
  /\ (service req = Reply 200 None -> result run w = Raise JSONDecodeError)
  /\ (forall v, service req = Reply 200 (Some v) -> ~ is_dict v ->
      result run w = Raise (AttributeError (type_name v) "get"))
  /\ (forall v, service req = Unreachable \/ service req = Reply 200 None
                \/ (service req = Reply 200 (Some v) /\ ~ is_dict v) ->
      logged (after run w) = logged w).
Proof.
  intros H1 H2 req run. unfold result, after, run.
  rewrite (upload_runs_to_post g account); auto. fold req.
  unfold bind, post, lift.
  repeat split.
  - intros Hs. rewrite Hs. reflexivity.
  - intros Hs. rewrite Hs. reflexivity.
  - intros v Hs Hv. rewrite Hs. cbn.
    destruct v; cbn; try reflexivity. contradiction Hv. exact I.
  - intros v [Hs | [Hs | [Hs Hv]]]; rewrite Hs; cbn; try reflexivity.
    destruct v; cbn; try reflexivity. contradiction Hv. exact I.
Qed.

Lemma upload_propagates_transport_and_decode_errors_witness :
  let req := request_for (Str "acct") "tok" good_png in
  let run := upload_to_cloudflare uploader_names_bound (fun _ => Unreachable)
               good_png "acct" "tok" in
  ((fun _ : http_request => Unreachable) req = Unreachable ->
   result run empty_world = Raise ConnectionError)
  /\ ((fun _ : http_request => Unreachable) req = Reply 200 None ->
      result run empty_world = Raise JSONDecodeError)
  /\ (forall v, (fun _ : http_request => Unreachable) req = Reply 200 (Some v) ->
      ~ is_dict v ->
      result run empty_world = Raise (AttributeError (type_name v) "get"))
  /\ (forall v, (fun _ : http_request => Unreachable) req = Unreachable
                \/ (fun _ : http_request => Unreachable) req = Reply 200 None
                \/ ((fun _ : http_request => Unreachable) req
                    = Reply 200 (Some v) /\ ~ is_dict v) ->
      logged (after run empty_world) = logged empty_world).
Proof.
  apply (upload_propagates_transport_and_decode_errors uploader_names_bound
           (Str "acct") (fun _ => Unreachable) "/pics/good.png"
           (mkFile 100 (Some (mkImage "PNG" 1 1))) "acct" "tok" empty_world).
  - reflexivity.
  - reflexivity.
Defined.



(** ** [file_walker] *)

Lemma bind_ok_inv {A B : Type} (m : M A) (k : A -> M B) (w : World) (b : B) :
  result (bind m k) w = Ok b ->
  exists a, result m w = Ok a /\ result (k a) (after m w) = Ok b.
Proof.
  unfold result at 1. rewrite run_bind.
  destruct (result m w) as [a | e]; [| discriminate].
  intros H. exists a. split; [reflexivity | exact H].
Qed.

Lemma after_bind_ok {A B : Type} (m : M A) (k : A -> M B) (w : World) (a : A) :
  result m w = Ok a -> after (bind m k) w = after (k a) (after m w).
Proof. intros H. unfold after at 1. rewrite run_bind, H. reflexivity. Qed.

(** A loop over two lists of items is the loop over the first, then, if it
    got through, the loop over the second. *)
Lemma walk_items_app (g : namespace) (service : http_request -> http_reply)
    (cf_id cf_token : string) (xs ys : list Path) :
  forall file_log w,
    walk_items g service (xs ++ ys) cf_id cf_token file_log w
    = match walk_items g service xs cf_id cf_token file_log w with
      | (Ok log, w') => walk_items g service ys cf_id cf_token log w'
      | (Raise e, w') => (Raise e, w')
      end.
Proof.
  induction xs as [| x xs IH]; intros file_log w; [reflexivity |].
  cbn [app walk_items]. unfold bind.
  destruct (file_walker g service x cf_id cf_token w) as [[sub | e] w'].
  - apply IH.
  - reflexivity.
Qed.

Section Walk_footprint.

Variable R : World -> World -> Prop.
Hypothesis R_refl : forall w, R w w.
Hypothesis R_trans : forall w1 w2 w3, R w1 w2 -> R w2 w3 -> R w1 w3.

Variable g : namespace.
Variable service : http_request -> http_reply.
Variables cf_id cf_token : string.

Hypothesis checker_keeps : forall path,
  keeps R (image_checker g path default_max_bytes default_max_dim
             default_max_pixels default_image_types).
Hypothesis upload_keeps : forall image,
  keeps R (upload_to_cloudflare g service image cf_id cf_token).
Hypothesis emit_keeps : forall lvl msg, keeps R (emit lvl msg).

Lemma walk_items_keeps (items : list Path) :
  Forall (fun item => keeps R (file_walker g service item cf_id cf_token))
         items ->
  forall file_log, keeps R (walk_items g service items cf_id cf_token file_log).
Proof.
  induction 1 as [| c cs Hc _ IH]; intros file_log; cbn [walk_items].
  - apply keeps_ret, R_refl.
  - apply (keeps_bind _ R_trans); [exact Hc | intros sub; apply IH].
Qed.

Lemma file_walker_keeps (pobj : Path) :
  keeps R (file_walker g service pobj cf_id cf_token).
Proof.
  induction pobj as [p f | p listable children IH | p] using Path_tree_ind.
  - cbn [file_walker]. unfold logger_info.
    apply (keeps_bind _ R_trans); [apply checker_keeps | intros ok].
    destruct ok; [| apply keeps_ret, R_refl].
    apply (keeps_bind _ R_trans); [apply upload_keeps | intros resp].
    apply (keeps_bind _ R_trans); [apply emit_keeps | intros _].
    apply keeps_ret, R_refl.
  - destruct listable; [| intros w; apply R_refl].
    intros w. unfold after. rewrite file_walker_directory.
    now apply walk_items_keeps.
  - intros w. apply R_refl.
Qed.

End Walk_footprint.




(** X14.  A walk in the module never sends a request and never touches a
    report file, whatever the tree holds and however the walk ends. *)
Theorem walk_in_module_sends_nothing (service : http_request -> http_reply)
    (cf_id cf_token : string) (pobj : Path) (w : World) :
  posted (after (file_walker module_globals service pobj cf_id cf_token) w)
  = posted w
  /\ report_file (after (file_walker module_globals service pobj cf_id
                           cf_token) w) = report_file w.
Proof.
  apply (file_walker_keeps only_logs only_logs_refl only_logs_trans).
  - intros path. apply image_checker_only_logs.
  - intros image w'. unfold after. rewrite upload_in_module_raises.
    apply only_logs_refl.
  - apply emit_only_logs.
Qed.

(** The log of a walk that returns is what the regular files of the tree
    contribute one by one, in the order the walk meets them. *)
Lemma walk_items_log (g : namespace) (service : http_request -> http_reply)
    (cf_id cf_token : string) (items : list Path) :
  Forall (fun item => forall w log,
            result (file_walker g service item cf_id cf_token) w = Ok log ->
            log = flat_map (entries_of g service cf_id cf_token)
                    (regular_files item))
         items ->
  forall file_log w log,
    result (walk_items g service items cf_id cf_token file_log) w = Ok log ->
    log = (file_log
           ++ flat_map (entries_of g service cf_id cf_token)
                (flat_map regular_files items))%list.
Proof.
  induction 1 as [| c cs Hc _ IH]; intros file_log w log; cbn [walk_items].
  - cbn. rewrite app_nil_r. congruence.
  - intros H. apply bind_ok_inv in H as [sub [E1 E2]].
    apply IH in E2. apply Hc in E1. subst sub log.
    cbn [flat_map]. now rewrite flat_map_app, app_assoc.
Qed.

Lemma file_walker_log (g : namespace) (service : http_request -> http_reply)
    (cf_id cf_token : string) (pobj : Path) (w : World)
    (log : list (Path * value)) :
  result (file_walker g service pobj cf_id cf_token) w = Ok log ->
  log = flat_map (entries_of g service cf_id cf_token) (regular_files pobj).
Proof.
  revert w log.
  induction pobj as [p f | p listable children IH | p] using Path_tree_ind;
    intros w log H.
  - cbn [regular_files flat_map]. rewrite app_nil_r. unfold entries_of.
    rewrite (file_walker_stateless g service cf_id cf_token (Regular p f)
               empty_world w), H. reflexivity.
  - destruct listable; [| discriminate H].
    unfold result in H. rewrite file_walker_directory in H.
    apply (walk_items_log g service cf_id cf_token children IH) in H.
    exact H.
  - cbn in H. now injection H as <-.
Qed.

(** One regular file contributes no entry, or one entry under its own path. *)
Lemma entries_of_regular (g : namespace) (service : http_request -> http_reply)
    (cf_id cf_token : string) (p : string) (f : file_state) :
  entries_of g service cf_id cf_token (Regular p f) = []
  \/ exists resp,
       entries_of g service cf_id cf_token (Regular p f)
       = [(Regular p f, resp)].
Proof.
  unfold entries_of, result. cbn [file_walker]. rewrite run_bind.
  destruct (result _ empty_world) as [[] | e]; cbn; auto.
  rewrite run_bind. destruct (result _ _) as [resp | e]; cbn; auto.
  right. exists resp. reflexivity.
Qed.

Lemma regular_files_are_regular (pobj f : Path) :
  In f (regular_files pobj) -> is_file f = true.
Proof.
  revert f.
  induction pobj as [p st | p listable children IH | p] using Path_tree_ind;
    intros f; cbn [regular_files].
  - intros [<- | []]. reflexivity.
  - rewrite in_flat_map. intros [c [Hc Hf]].
    rewrite Forall_forall in IH. now apply (IH c Hc).
  - intros [].
Qed.

Lemma entries_of_files (g : namespace) (service : http_request -> http_reply)
    (cf_id cf_token : string) (fs : list Path) :
  (forall f, In f fs -> is_file f = true) ->
  Forall (fun entry => In (fst entry) fs)
         (flat_map (entries_of g service cf_id cf_token) fs)
  /\ (List.length (flat_map (entries_of g service cf_id cf_token) fs)
      <= List.length fs)%nat.
Proof.
  induction fs as [| f fs IH]; intros Hreg; [split; [constructor | cbn; lia] |].
  destruct IH as [IH1 IH2]; [intros x Hx; apply Hreg; now right |].
  assert (Hf : is_file f = true) by (apply Hreg; now left).
  destruct f as [p st | |]; try discriminate Hf.
  cbn [flat_map]. rewrite length_app. split.
  - apply Forall_app. split.
    + destruct (entries_of_regular g service cf_id cf_token p st)
        as [-> | [resp ->]]; repeat constructor.
    + eapply Forall_impl; [| exact IH1]. intros e He. now right.
  - destruct (entries_of_regular g service cf_id cf_token p st)
      as [-> | [resp ->]]; cbn; lia.
Qed.

(** X15.  In any namespace, the log a walk returns is the concatenation,
    in the order the walk meets them, of what each regular file of the
    tree contributes when walked by itself; directories and other paths
    contribute nothing. *)
Theorem walk_log_is_concatenation (g : namespace)
    (service : http_request -> http_reply) (cf_id cf_token : string)
    (pobj : Path) (w : World) (log : list (Path * value)) :
  result (file_walker g service pobj cf_id cf_token) w = Ok log ->
  log = flat_map (entries_of g service cf_id cf_token) (regular_files pobj).
Proof. apply file_walker_log. Qed.

Lemma walk_log_is_concatenation_witness :
  [(good_png, None_)]
  = flat_map (entries_of all_names_bound answers_500 "acct" "tok")
      (regular_files pics).
Proof.
  apply (walk_log_is_concatenation all_names_bound answers_500 "acct" "tok"
           pics empty_world [(good_png, None_)]).
  reflexivity.
Defined.

(** X16.  In any namespace, every entry of a returned log is filed under a
    regular file of the tree, and the log has at most as many entries as
    the tree has regular files. *)
Theorem walk_log_entries_are_regular_files (g : namespace)
    (service : http_request -> http_reply) (cf_id cf_token : string)
    (pobj : Path) (w : World) (log : list (Path * value)) :
  result (file_walker g service pobj cf_id cf_token) w = Ok log ->
  Forall (fun entry => In (fst entry) (regular_files pobj)
                       /\ is_file (fst entry) = true) log
  /\ (List.length log <= List.length (regular_files pobj))%nat.
Proof.
  intros H. apply file_walker_log in H. subst log.
  destruct (entries_of_files g service cf_id cf_token (regular_files pobj)
              (regular_files_are_regular pobj)) as [H1 H2].
  split; [| exact H2].
  eapply Forall_impl; [| exact H1]. intros e He. split; [exact He |].
  now apply (regular_files_are_regular pobj).
Qed.

Lemma walk_log_entries_are_regular_files_witness :
  Forall (fun entry => In (fst entry) (regular_files pics)
                       /\ is_file (fst entry) = true) [(good_png, None_)]
  /\ (List.length [(good_png, None_)] <= List.length (regular_files pics))%nat.
Proof.
  apply (walk_log_entries_are_regular_files all_names_bound answers_500
           "acct" "tok" pics empty_world [(good_png, None_)]).
  reflexivity.
Defined.

Lemma walk_items_calls (g : namespace) (service : http_request -> http_reply)
    (cf_id cf_token : string) (items : list Path) :
  Forall (fun item => forall w log,
            result (file_walker g service item cf_id cf_token) w = Ok log ->
            checker_calls (after (file_walker g service item cf_id cf_token) w)
            = (checker_calls w ++ map default_call_of (regular_files item))%list)
         items ->
  forall file_log w log,
    result (walk_items g service items cf_id cf_token file_log) w = Ok log ->
    checker_calls (after (walk_items g service items cf_id cf_token file_log) w)
    = (checker_calls w
       ++ map default_call_of (flat_map regular_files items))%list.
Proof.
  induction 1 as [| c cs Hc _ IH]; intros file_log w log; cbn [walk_items].
  - intros _. cbn. now rewrite app_nil_r.
  - intros H. apply bind_ok_inv in H as [sub [E1 E2]].
    rewrite (after_bind_ok _ _ _ _ E1), (IH _ _ _ E2), (Hc _ _ E1).
    cbn [flat_map]. now rewrite map_app, app_assoc.
Qed.

(** X17.  In any namespace, a walk that returns has put every regular
    file of the tree to the validator exactly once, in the order it met
    them, each time with the default constraints; nothing else was
    validated. *)
Theorem walk_checks_every_file_once (g : namespace)
    (service : http_request -> http_reply) (cf_id cf_token : string)
    (pobj : Path) (w : World) (log : list (Path * value)) :
  result (file_walker g service pobj cf_id cf_token) w = Ok log ->
  checker_calls (after (file_walker g service pobj cf_id cf_token) w)
  = (checker_calls w ++ map default_call_of (regular_files pobj))%list.
Proof.
  revert w log.
  induction pobj as [p f | p listable children IH | p] using Path_tree_ind;
    intros w log H.
  - apply file_walker_calls_checker.
  - destruct listable; [| discriminate H].
    unfold result in H. unfold after. rewrite file_walker_directory in H |- *.
    apply (walk_items_calls g service cf_id cf_token children IH _ _ _ H).
  - cbn. now rewrite app_nil_r.
Qed.

Lemma walk_checks_every_file_once_witness :
  checker_calls (after (file_walker module_globals answers_success docs
                          "acct" "tok") empty_world)
  = ([] ++ map default_call_of (regular_files docs))%list.
Proof.
  apply (walk_checks_every_file_once module_globals answers_success "acct"
           "tok" docs empty_world []).
  reflexivity.
Defined.

(** X18.  An exception ends the whole walk: when walking one child of a
    directory raises, the directory's walk raises too, and whatever comes
    after that child is never visited - the run is, result and world, the
    run over the directory cut off after the failing child. *)
Theorem walk_stops_at_first_exception (g : namespace)
    (service : http_request -> http_reply) (cf_id cf_token : string)
    (p : string) (before : list Path) (c : Path) (later : list Path)
    (e : exn) (w : World) :
  result (file_walker g service c cf_id cf_token) w = Raise e ->
  file_walker g service (Directory p true (before ++ c :: later)) cf_id
    cf_token w
  = file_walker g service (Directory p true (before ++ [c])) cf_id cf_token w
  /\ exists e',
       result (file_walker g service (Directory p true (before ++ c :: later))
                 cf_id cf_token) w = Raise e'.
Proof.
  intros Hc.
  assert (Hcut : forall items file_log w',
             walk_items g service (c :: items) cf_id cf_token file_log w'
             = (Raise e, after (file_walker g service c cf_id cf_token) w')).
  { intros items file_log w'. cbn [walk_items]. rewrite run_bind.
    rewrite (file_walker_stateless g service cf_id cf_token c w' w), Hc.
    reflexivity. }
  unfold result. rewrite !file_walker_directory, !walk_items_app.
  destruct (walk_items g service before cf_id cf_token [] w) as [[log | e0] w'].
  - rewrite !Hcut. split; [reflexivity | now exists e].
  - split; [reflexivity | now exists e0].
Qed.

Lemma walk_stops_at_first_exception_witness :
  file_walker module_globals answers_success
    (Directory "/pics" true ([notes_txt] ++ good_png :: [heavy_png; anim_gif]))
    "acct" "tok" empty_world
  = file_walker module_globals answers_success
      (Directory "/pics" true ([notes_txt] ++ [good_png])) "acct" "tok"
      empty_world
  /\ exists e',
       result (file_walker module_globals answers_success
                 (Directory "/pics" true
                    ([notes_txt] ++ good_png :: [heavy_png; anim_gif]))
                 "acct" "tok") empty_world = Raise e'.
Proof.
  apply (walk_stops_at_first_exception module_globals answers_success "acct"
           "tok" "/pics" [notes_txt] good_png [heavy_png; anim_gif]
           (NameError "image") empty_world).
  reflexivity.
Defined.

Lemma bearer_requests_only_refl (cf_token : string) (w : World) :
  bearer_requests_only cf_token w w.
Proof. exists []. split; [now rewrite app_nil_r | constructor]. Qed.

Lemma bearer_requests_only_trans (cf_token : string) (w1 w2 w3 : World) :
  bearer_requests_only cf_token w1 w2 -> bearer_requests_only cf_token w2 w3 ->
  bearer_requests_only cf_token w1 w3.
Proof.
  intros [r1 [E1 F1]] [r2 [E2 F2]]. exists (r1 ++ r2)%list. split.
  - now rewrite E2, E1, app_assoc.
  - apply Forall_app. now split.
Qed.

Lemma same_posted_bearer (cf_token : string) {A : Type} (m : M A) :
  keeps only_logs m -> keeps (bearer_requests_only cf_token) m.
Proof.
  intros H w. destruct (H w) as [Hp _]. exists []. split; [| constructor].
  now rewrite Hp, app_nil_r.
Qed.

Lemma upload_bearer (g : namespace) (service : http_request -> http_reply)
    (image : Path) (cf_id cf_token : string) :
  keeps (bearer_requests_only cf_token)
        (upload_to_cloudflare g service image cf_id cf_token).
Proof.
  unfold upload_to_cloudflare, logger_error.
  keeps_body (bearer_requests_only_refl cf_token)
             (bearer_requests_only_trans cf_token);
    try (apply same_posted_bearer, emit_only_logs).
  intros w. unfold after, post.
  match goal with
  | |- context [service ?r] =>
      exists [r]; split; [destruct (service r); reflexivity |]
  end.
  repeat constructor.
Qed.

(** X19.  In any namespace, every request a walk sends has one header and
    no other: [Authorization], with the bearer token the walk was given.
    The account id is never put in a header. *)
Theorem walk_requests_carry_the_token (g : namespace)
    (service : http_request -> http_reply) (cf_id cf_token : string)
    (pobj : Path) (w : World) :
  exists reqs : list http_request,
    posted (after (file_walker g service pobj cf_id cf_token) w)
    = (posted w ++ reqs)%list
    /\ Forall (fun r => headers r = [("Authorization", "Bearer " ++ cf_token)])
              reqs.
Proof.
  apply (file_walker_keeps (bearer_requests_only cf_token)
           (bearer_requests_only_refl cf_token)
           (bearer_requests_only_trans cf_token)).
  - intros path. apply same_posted_bearer, image_checker_only_logs.
  - intros image. apply upload_bearer.
  - intros lvl msg. apply same_posted_bearer, emit_only_logs.
Qed.

(** ** The report block and [uploader] *)






Lemma report_untouched_refl (w : World) : report_untouched w w.
Proof. reflexivity. Qed.

Lemma report_untouched_trans (w1 w2 w3 : World) :
  report_untouched w1 w2 -> report_untouched w2 w3 -> report_untouched w1 w3.
Proof. unfold report_untouched. congruence. Qed.

Lemma upload_report_untouched (g : namespace)
    (service : http_request -> http_reply) (image : Path)
    (cf_id cf_token : string) :
  keeps report_untouched (upload_to_cloudflare g service image cf_id cf_token).
Proof.
  unfold upload_to_cloudflare, logger_error.
  keeps_body report_untouched_refl report_untouched_trans;
    try (intros w; reflexivity).
  intros w. unfold report_untouched, after, post.
  match goal with |- context [service ?r] => now destruct (service r) end.
Qed.

(** X22.  Run without a report path, the command writes no report in any
    namespace: whatever the walk does and however it ends, the report file
    is what it was before. *)
Theorem uploader_without_report_writes_no_file (g : namespace)
    (service : http_request -> http_reply) (path : Path)
    (cloudflare_token cloudflare_id : string) (w : World) :
  report_file (after (uploader g service path cloudflare_token cloudflare_id
                        None) w) = report_file w.
Proof.
  unfold uploader.
  apply (keeps_bind report_untouched report_untouched_trans).
  - apply (file_walker_keeps report_untouched report_untouched_refl
             report_untouched_trans).
    + intros p. intros w'. apply (image_checker_only_logs g p).
    + intros image. apply upload_report_untouched.
    + intros lvl msg w'. reflexivity.
  - intros file_log. apply keeps_ret, report_untouched_refl.
Qed.

